(** * RedWire network analyzer: packet ingestion and conversation tracking

    A shallow embedding of [network_analyzer.py] (class
    [NetworkAnalyzerApp]).  The application state is a record that is
    passed explicitly.  A method that may raise returns a [result]: its
    value, or the exception with the state as it is when the exception
    is raised, since what a method has done to [self] before it raises
    stays done.

    What is modelled, and how:
    - a scapy packet is a record with an optional IP layer, a capture
      time, a wire length and a summary line; the time is a float for
      a packet that [sniff] delivers and an [EDecimal] for a packet
      that [rdpcap] reads, and [time.localtime] raises [TypeError] for
      the latter;
    - [self.conversations] is a [defaultdict]; Python dictionaries keep
      their keys in insertion order and the conversation list is sorted
      from that order, so the dictionary is an association list with
      distinct keys, new keys being appended;
    - [self.graph] is a [networkx.Graph], an adjacency dictionary; only
      its nodes and its edge relation are observed here, so it is a
      finite map from a node to the finite set of its neighbours;
    - [self.packet_tree] is the list of the rows it shows, oldest first;
    - the buttons of the conversation panel are the list of keys (and
      counts) in the order in which they are packed;
    - [self.after(0, f, p)] appends to the pending callbacks of the Tk
      main loop, which runs them in order once the current handler has
      returned; Tk calls every handler through its [CallWrapper], which
      reports an exception and lets the main loop go on;
    - [update_network_map] returns what it draws, and raises the
      [ValueError] of [draw_networkx_nodes] when it is given two node
      sizes for a graph of one node;
    - [_fetch_ip_info] takes the network as a function from the URL to
      the reply, and returns the URLs it has requested with its text;
    - the machine (its address and its time zone) is a variable of the
      development.

    The canvas is not part of the state (nothing reads it back), nor
    are the enabled flags of the buttons and the sniffer thread itself;
    the two address text boxes are modelled on their own ([look_up]).

    The properties are stated on operations, each run until the main
    loop is idle ([Op], [do_op], [run]); the invariants of the store
    are also shown for every interleaving of the handlers ([step]). *)

From Stdlib Require Import ZArith DecimalString.
From stdpp Require Import base option list gmap strings sorting.

Local Open Scope string_scope.

(** ** Exceptions *)

Inductive exn : Type :=
| IndexError   (* packet['IP'] on a packet without that layer *)
| KeyError     (* data['status'] on an object without that field *)
| TypeError    (* time.localtime of an EDecimal; data['status'] on a
                  value that is not an object *)
| ValueError   (* draw_networkx_nodes: sizes and nodes differ in number *)
| Scapy_Exception.  (* rdpcap on a file that is no capture file *)

(** The outcome of code that works on a state [S]: the value it
    returns, or the exception it raises and the state at that point. *)
Inductive result (S A : Type) : Type :=
| Ok (a : A)
| Raise (e : exn) (s : S).
Arguments Ok {S A} a.
Arguments Raise {S A} e s.

#[global] Instance result_ret {S} : MRet (result S) := fun A a => Ok a.
#[global] Instance result_bind {S} : MBind (result S) := fun A B f m =>
  match m with
  | Ok a => f a
  | Raise e s => Raise e s
  end.

(** ** Python built-ins used by the program *)

Module Py.

Section Sorted.
Context {A K : Type} (lt : K -> K -> bool) (key : A -> K).

(** [x] is put in front of the first element whose key is not
    smaller than its own, so it stays in front of the elements it
    compares equal to. *)
Fixpoint insert_stable (x : A) (l : list A) : list A :=
  match l with
  | [] => [x]
  | y :: l' =>
      if lt (key y) (key x) then y :: insert_stable x l' else x :: y :: l'
  end.

(** [sorted(l, key=key)]: ascending, stable, comparing the keys
    with [<] only. *)
Fixpoint sort_stable (l : list A) : list A :=
  match l with
  | [] => []
  | x :: l' => insert_stable x (sort_stable l')
  end.

(** [sorted(l, key=key, reverse=rev)].  For a reversed sort CPython
    reverses the list, sorts it and reverses the outcome, which
    keeps equal elements in their original order. *)
Definition sorted (rev : bool) (l : list A) : list A :=
  if rev then reverse (sort_stable (reverse l)) else sort_stable l.
End Sorted.

(** [str(n)] for an integer. *)
Definition str (n : Z) : string := NilZero.string_of_int (Z.to_int n).

(** [s.startswith(prefixes)] for a tuple of prefixes. *)
Definition startswith (s : string) (prefixes : list string) : bool :=
  existsb (fun p => String.prefix p s) prefixes.

(** The two kinds of number that the time of a packet can be: a
    [float], or an [EDecimal] (scapy's subclass of [decimal.Decimal]).
    [secs] is the number rounded down to a whole number of seconds. *)
Inductive number : Type :=
| PyFloat (secs : Z)
| EDecimal (secs : Z).

(** [time.localtime(t)] on a machine whose zone is [utcoffset secs]
    seconds east of UTC at the time [secs]: the seconds on the local
    clock.  It takes a float; a [Decimal] cannot be interpreted as an
    integer and raises [TypeError] (Python 3.10 and later). *)
Definition localtime {S : Type} (utcoffset : Z -> Z) (s : S) (t : number)
  : result S Z :=
  match t with
  | PyFloat secs => Ok (secs + utcoffset secs)%Z
  | EDecimal _ => Raise TypeError s
  end.

(** Two-digit, zero-padded decimal field of [strftime]. *)
Definition two_digits (n : Z) : string :=
  if (n <? 10)%Z then "0" ++ str n else str n.

(** [time.strftime('%H:%M:%S', tm)], [tm] being what [localtime]
    gives. *)
Definition strftime_HMS (tm : Z) : string :=
  two_digits ((tm / 3600) mod 24) ++ ":" ++
  two_digits ((tm / 60) mod 60) ++ ":" ++
  two_digits (tm mod 60).

End Py.

(** ** Packets *)

Record IPLayer : Type := mkIP {
  src : string;
  dst : string;
  proto : Z
}.

Record Packet : Type := mkPacket {
  ip_layer : option IPLayer;   (* the IP layer, when there is one *)
  time : Py.number;            (* packet.time *)
  wire_len : nat;              (* len(packet) *)
  summary : string             (* packet.summary() *)
}.

(** ['IP' in packet] *)
Definition has_IP (packet : Packet) : bool :=
  match ip_layer packet with Some _ => true | None => false end.

(** [packet['IP']], evaluated in the state [s]. *)
Definition get_IP {S : Type} (s : S) (packet : Packet) : result S IPLayer :=
  match ip_layer packet with
  | Some ip => Ok ip
  | None => Raise IndexError s
  end.

(** ** What scapy hands over *)

Module Scapy.

(** The time of a packet in whole seconds. *)
Definition seconds (packet : Packet) : Z :=
  match time packet with
  | Py.PyFloat secs => secs
  | Py.EDecimal secs => secs
  end.

(** A packet as [sniff] gives it to [prn]: its time is the float that
    the socket reported. *)
Definition sniffed (packet : Packet) : Packet :=
  mkPacket (ip_layer packet) (Py.PyFloat (seconds packet))
           (wire_len packet) (summary packet).

(** A packet as [rdpcap] reads it: its time is the [EDecimal] made of
    the seconds and microseconds of the record. *)
Definition read (packet : Packet) : Packet :=
  mkPacket (ip_layer packet) (Py.EDecimal (seconds packet))
           (wire_len packet) (summary packet).

(** [rdpcap(filepath)] for a file with the records [records]. *)
Definition rdpcap (records : list Packet) : list Packet := map read records.

End Scapy.

(** Whether [time.localtime] takes the time of the packet. *)
Definition float_time (packet : Packet) : bool :=
  match time packet with
  | Py.PyFloat _ => true
  | Py.EDecimal _ => false
  end.

(** ** Flow keys *)

Definition FlowKey : Type := string * string.

(** [tuple(sorted((src, dst)))] *)
Definition conversation_key (src dst : string) : FlowKey :=
  match Py.sorted String.ltb id false [src; dst] with
  | [a; b] => (a, b)
  | _ => (src, dst)
  end.

(** ** The communication graph ([networkx.Graph]) *)

Module Nx.

Abbreviation Graph := (gmap string (gset string)).

Definition neighbors (g : Graph) (u : string) : gset string :=
  default ∅ (g !! u).

(** [g.add_edge(u, v)]: both nodes are created when they are new, and
    each becomes a neighbour of the other. *)
Definition add_edge (g : Graph) (u v : string) : Graph :=
  let g1 := <[u := {[v]} ∪ neighbors g u]> g in
  <[v := {[u]} ∪ neighbors g1 v]> g1.

(** [g.clear()] *)
Definition clear (g : Graph) : Graph := ∅.

(** [g.has_edge(u, v)] *)
Definition has_edge (g : Graph) (u v : string) : bool :=
  bool_decide (v ∈ neighbors g u).

(** [g.nodes] *)
Definition nodes (g : Graph) : gset string := dom g.

(** [g.degree[u]]; a self-loop counts twice. *)
Definition degree (g : Graph) (u : string) : nat :=
  size (neighbors g u) + (if bool_decide (u ∈ neighbors g u) then 1 else 0).

End Nx.

(** ** Conversations ([defaultdict(lambda: {"count": 0, "packets": []})]) *)

Module Conv.
Record t : Type := mk {
  count : nat;
  packets : list Packet
}.

(** The value the default factory makes. *)
Definition fresh : t := mk 0 [].

Definition incr_count (c : t) : t := mk (count c + 1) (packets c).
Definition append (p : Packet) (c : t) : t := mk (count c) (packets c ++ [p]).
End Conv.

Module DefaultDict.

Abbreviation t := (list (FlowKey * Conv.t)).

(** [d.get(k)] without a default: no entry is made. *)
Fixpoint lookup (k : FlowKey) (d : t) : option Conv.t :=
  match d with
  | [] => None
  | (k', v) :: d' => if decide (k' = k) then Some v else lookup k d'
  end.

(** What evaluating [d[k]] does to [d]: a missing key gets the
    default value, at the end of the insertion order. *)
Definition touch (k : FlowKey) (d : t) : t :=
  match lookup k d with
  | Some _ => d
  | None => d ++ [(k, Conv.fresh)]
  end.

(** The value [d[k]] evaluates to. *)
Definition getitem (k : FlowKey) (d : t) : Conv.t :=
  default Conv.fresh (lookup k d).

(** In-place change of the value stored under [k]. *)
Fixpoint alter (f : Conv.t -> Conv.t) (k : FlowKey) (d : t) : t :=
  match d with
  | [] => []
  | (k', v) :: d' =>
      if decide (k' = k) then (k', f v) :: d' else (k', v) :: alter f k d'
  end.

(** [d.keys()] *)
Definition keys (d : t) : list FlowKey := d.*1.

End DefaultDict.

(** ** The widgets that carry data *)

Inductive Tag : Type := evenrow | oddrow.

(** One row of [self.packet_tree]; the fields are the columns
    ("No.", "Time", "Source", "Destination", "Protocol", "Length",
    "Info") and the tag. *)
Record Row : Type := mkRow {
  row_no : nat;
  row_time : string;
  row_source : string;
  row_destination : string;
  row_protocol : string;
  row_length : nat;
  row_info : string;
  row_tag : Tag
}.

(** One button of the conversation panel: the two addresses and the
    count of its text, and the key its command selects. *)
Record Button : Type := mkButton {
  btn_ip1 : string;
  btn_ip2 : string;
  btn_count : nat;
  btn_command : FlowKey
}.

(** ** The application state *)

Record App : Type := mkApp {
  packets : list Packet;
  conversations : DefaultDict.t;
  selected_conversation : option FlowKey;
  graph : Nx.Graph;
  is_sniffing : bool;
  packet_tree : list Row;
  conv_scroll_frame : list Button;
  after_callbacks : list Packet   (* pending [self.after(0, self._process_packet, p)] *)
}.

Definition set_packets (v : list Packet) (a : App) : App :=
  mkApp v (conversations a) (selected_conversation a) (graph a)
        (is_sniffing a) (packet_tree a) (conv_scroll_frame a) (after_callbacks a).
Definition set_conversations (v : DefaultDict.t) (a : App) : App :=
  mkApp (packets a) v (selected_conversation a) (graph a)
        (is_sniffing a) (packet_tree a) (conv_scroll_frame a) (after_callbacks a).
Definition set_selected_conversation (v : option FlowKey) (a : App) : App :=
  mkApp (packets a) (conversations a) v (graph a)
        (is_sniffing a) (packet_tree a) (conv_scroll_frame a) (after_callbacks a).
Definition set_graph (v : Nx.Graph) (a : App) : App :=
  mkApp (packets a) (conversations a) (selected_conversation a) v
        (is_sniffing a) (packet_tree a) (conv_scroll_frame a) (after_callbacks a).
Definition set_is_sniffing (v : bool) (a : App) : App :=
  mkApp (packets a) (conversations a) (selected_conversation a) (graph a)
        v (packet_tree a) (conv_scroll_frame a) (after_callbacks a).
Definition set_packet_tree (v : list Row) (a : App) : App :=
  mkApp (packets a) (conversations a) (selected_conversation a) (graph a)
        (is_sniffing a) v (conv_scroll_frame a) (after_callbacks a).
Definition set_conv_scroll_frame (v : list Button) (a : App) : App :=
  mkApp (packets a) (conversations a) (selected_conversation a) (graph a)
        (is_sniffing a) (packet_tree a) v (after_callbacks a).
Definition set_after_callbacks (v : list Packet) (a : App) : App :=
  mkApp (packets a) (conversations a) (selected_conversation a) (graph a)
        (is_sniffing a) (packet_tree a) (conv_scroll_frame a) v.

(** [__init__] *)
Definition init : App :=
  mkApp [] [] None ∅ false [] [] [].

(** Tk calls a handler through its [CallWrapper]: an exception is
    reported ([report_callback_exception] prints the traceback) and the
    main loop goes on, with [self] as the handler has left it. *)
Definition CallWrapper (outcome : result App App) : App :=
  match outcome with
  | Ok self => self
  | Raise _ self => self
  end.

(** ** The machine *)

(** What the program takes from the machine it runs on. *)
Record Machine : Type := mkMachine {
  local_ip : string;    (* what [get_local_ip()] finds: [self.local_ip] *)
  utcoffset : Z -> Z    (* the local zone: seconds east of UTC at a time *)
}.

(** A machine at 10.0.0.1, one hour east of UTC. *)
Definition lab : Machine := mkMachine "10.0.0.1" (fun _ => 3600%Z).

(** ** What is drawn ([update_network_map]) *)

(** The character U+2194 of the titles, in UTF-8. *)
Definition arrow : string :=
  String (Ascii.ascii_of_nat 226)
    (String (Ascii.ascii_of_nat 134)
       (String (Ascii.ascii_of_nat 148) EmptyString)).

(** [node_sizes]: the list given for a selected conversation, or the
    sizes computed from the degrees, each kept with its node. *)
Inductive NodeSizes : Type :=
| SizesInOrder (sizes : list nat)
| SizesByDegree (sizes : gmap string nat).

(** What [update_network_map] puts on the canvas: the title, the graph
    [g] and, unless the text 'No network traffic to display' is shown
    in its place, the sizes and the colours of the nodes. *)
Record Drawing : Type := mkDrawing {
  drawing_title : string;
  drawing_graph : Nx.Graph;
  drawing_nodes : option (NodeSizes * gmap string string)
}.

(** ** Address look-up ([_fetch_ip_info]) *)

(** A value in a decoded JSON object: a string, or any other value,
    given by the text that an f-string makes of it. *)
Inductive JsonValue : Type :=
| JString (s : string)
| JOther (text : string).

#[global] Instance JsonValue_eq_dec : EqDecision JsonValue.
Proof. solve_decision. Defined.

(** [f"{v}"] *)
Definition format (v : JsonValue) : string :=
  match v with
  | JString s => s
  | JOther text => text
  end.

(** What [requests.get(url, timeout=5)], [raise_for_status()] and
    [response.json()] come to: one of them raises a
    [requests.RequestException] (no connection, an error status, a
    body that is not JSON), or the body is decoded: to a [dict] when
    it is a JSON object, to a list, a string, a number, a truth value
    or [None] otherwise. *)
Inductive HttpReply : Type :=
| RequestException
| Json (data : list (string * JsonValue))
| JsonNotObject.

Definition nl : string := String (Ascii.ascii_of_nat 10) EmptyString.

(** [data.get(k, d)] *)
Fixpoint dict_get (k : string) (d : string) (data : list (string * JsonValue))
  : JsonValue :=
  match data with
  | [] => JString d
  | (k', v) :: data' => if decide (k' = k) then v else dict_get k d data'
  end.

(** [data[k]], evaluated in the state [s]. *)
Fixpoint dict_getitem {S : Type} (s : S) (k : string)
    (data : list (string * JsonValue)) : result S JsonValue :=
  match data with
  | [] => Raise KeyError s
  | (k', v) :: data' => if decide (k' = k) then Ok v else dict_getitem s k data'
  end.

(** The text [_fetch_ip_info] puts in the text box, with the URLs it
    has requested on the way, in order.  [requests_get] stands for the
    network.  The state of this thread is the list of the URLs
    requested so far. *)
Definition _fetch_ip_info (requests_get : string -> HttpReply) (ip : string)
  : result (list string) (string * list string) :=
  if Py.startswith ip ["10."; "192.168."; "172.16."; "127.0.0.1"] then
    Ok ("IP: " ++ ip ++ nl ++ "Status: Private/Local Address", [])
  else
    let url := "http://ip-api.com/json/" ++ ip in
    match requests_get url with
    | Json data =>
        status ← dict_getitem [url] "status" data;
        if decide (status = JString "success") then
          Ok ("IP: " ++ format (dict_get "query" "N/A" data) ++ nl ++
              "Country: " ++ format (dict_get "country" "N/A" data) ++ nl ++
              "City: " ++ format (dict_get "city" "N/A" data) ++ nl ++
              "ISP: " ++ format (dict_get "isp" "N/A" data) ++ nl ++
              "Org: " ++ format (dict_get "org" "N/A" data), [url])
        else
          Ok ("IP: " ++ ip ++ nl ++ "Status: Failed" ++ nl ++
              "Reason: " ++ format (dict_get "message" "Unknown" data), [url])
    | JsonNotObject =>
        (* data['status'] on a list, a string, a number or None *)
        Raise TypeError [url]
    | RequestException =>
        Ok ("IP: " ++ ip ++ nl ++ "Status: Error" ++ nl ++
            "Reason: API request failed.", [url])
    end.

(** ** The address text boxes ([get_ip_info]) *)

(** A text box: its text and whether its state is "disabled".  A
    disabled box ignores insertions and deletions. *)
Record TextBox : Type := mkTextBox {
  tb_text : string;
  tb_disabled : bool
}.

(** [box.configure(state=...)] *)
Definition tb_configure (disabled : bool) (box : TextBox) : TextBox :=
  mkTextBox (tb_text box) disabled.

(** [box.delete("1.0", "end")] *)
Definition tb_delete_all (box : TextBox) : TextBox :=
  if tb_disabled box then box else mkTextBox "" false.

(** [box.insert("1.0", s)] *)
Definition tb_insert_start (s : string) (box : TextBox) : TextBox :=
  if tb_disabled box then box else mkTextBox (s ++ tb_text box)%string false.

(** [get_ip_info]: the text box as it is left, and the address the
    thread it starts is given, if it starts one. *)
Definition get_ip_info (ip : string) (target_textbox : TextBox)
  : TextBox * option string :=
  if decide (ip = "" \/ ip = "N/A") then (target_textbox, None)
  else
    let box := tb_configure false target_textbox in
    let box := tb_delete_all box in
    let box := tb_insert_start ("Looking up " ++ ip ++ "...")%string box in
    (box, Some ip).

(** [_update_textbox] of [_fetch_ip_info]. *)
Definition _update_textbox (info_str : string) (target_textbox : TextBox)
  : TextBox :=
  let box := tb_delete_all target_textbox in
  let box := tb_insert_start info_str box in
  tb_configure true box.

(** One look-up from its start to its end: [get_ip_info], the thread
    running [_fetch_ip_info] and the [_update_textbox] it schedules.
    An exception ends the thread and leaves the box as it is. *)
Definition look_up (requests_get : string -> HttpReply) (ip : string)
    (target_textbox : TextBox) : TextBox :=
  match get_ip_info ip target_textbox with
  | (box, None) => box
  | (box, Some ip) =>
      match _fetch_ip_info requests_get ip with
      | Ok (info_str, _) => _update_textbox info_str box
      | Raise _ _ => box
      end
  end.

(** The prefixes [_fetch_ip_info] answers without a request. *)
Definition local_prefixes : list string :=
  ["10."; "192.168."; "172.16."; "127.0.0.1"].

(** The URL requested for an address. *)
Definition api_url (ip : string) : string :=
  ("http://ip-api.com/json/" ++ ip)%string.

(** ** Addresses *)

(** The dotted form of an IPv4 address. *)
Definition dotted (a b c d : Z) : string :=
  (Py.str a ++ "." ++ Py.str b ++ "." ++ Py.str c ++ "." ++ Py.str d)%string.

(** The address as a 32-bit number. *)
Definition ipv4_value (a b c d : Z) : Z :=
  Z.lor (Z.shiftl a 24) (Z.lor (Z.shiftl b 16) (Z.lor (Z.shiftl c 8) d)).

(** Membership in the block [base/prefix_len]. *)
Definition in_block (addr base prefix_len : Z) : bool :=
  (Z.shiftr addr (32 - prefix_len) =? Z.shiftr base (32 - prefix_len))%Z.

(** The ranges the specification names: 10.0.0.0/8, 172.16.0.0/12,
    192.168.0.0/16 and loopback (127.0.0.0/8). *)
Definition spec_private_range (a b c d : Z) : bool :=
  let addr := ipv4_value a b c d in
  in_block addr (ipv4_value 10 0 0 0) 8
  || in_block addr (ipv4_value 172 16 0 0) 12
  || in_block addr (ipv4_value 192 168 0 0) 16
  || in_block addr (ipv4_value 127 0 0 0) 8.

(** The answer for an address that is not looked up. *)
Definition local_answer (ip : string) : string * list string :=
  (("IP: " ++ ip ++ nl ++ "Status: Private/Local Address")%string, []).

(** ** Sample traffic *)

Definition pkt (s d : string) (pr : Z) (len : nat) : Packet :=
  mkPacket (Some (mkIP s d pr)) (Py.PyFloat 0) len (s ++ " > " ++ d).

Definition hostA : string := "10.0.0.1".
Definition hostB : string := "10.0.0.2".
Definition hostC : string := "8.8.8.8".

Definition pAB : Packet := pkt hostA hostB 6 60.
Definition pBA : Packet := pkt hostB hostA 6 60.
Definition pAC : Packet := pkt hostA hostC 17 40.
Definition pAA : Packet := pkt hostA hostA 1 84.
Definition arp : Packet := mkPacket None (Py.PyFloat 0) 42 "ARP who has 10.0.0.2".

(** ** Orders *)

(** Ascending and descending order of a numeric key. *)
Definition asc_by {A : Type} (key : A -> nat) : relation A :=
  fun a b => key a <= key b.

Definition desc_by {A : Type} (key : A -> nat) : relation A :=
  fun a b => key b <= key a.

(** The lexicographic order on strings, characters compared by code. *)
Inductive lex_le : string -> string -> Prop :=
| lex_le_empty s : lex_le "" s
| lex_le_head c1 c2 s1 s2 :
    (Ascii.N_of_ascii c1 < Ascii.N_of_ascii c2)%N ->
    lex_le (String c1 s1) (String c2 s2)
| lex_le_tail c s1 s2 : lex_le s1 s2 -> lex_le (String c s1) (String c s2).

(** * Tactics *)

(** Splits a conjunction into its parts, and nothing else. *)
Ltac conj := repeat match goal with |- _ /\ _ => split end.


(** * The application on a machine *)

Section Application.

Variable host : Machine.

(** ** The methods of [NetworkAnalyzerApp] *)

(** [proto_map.get(proto, str(proto))] with
    [proto_map = {6: 'TCP', 17: 'UDP', 1: 'ICMP'}]. *)
Definition proto_name (proto : Z) : string :=
  match proto with
  | 6%Z => "TCP"
  | 17%Z => "UDP"
  | 1%Z => "ICMP"
  | _ => Py.str proto
  end.

Definition add_packet_to_tree (self : App) (packet : Packet) : result App App :=
  tm ← Py.localtime (utcoffset host) self (time packet);
  let packet_time := Py.strftime_HMS tm in
  ip ← get_IP self packet;
  let length := wire_len packet in
  let info := summary packet in
  let proto_name := proto_name (proto ip) in
  let item_count := List.length (packet_tree self) in
  let tag := if (item_count mod 2 =? 0)%nat then evenrow else oddrow in
  let packet_data :=
    mkRow (List.length (packets self)) packet_time (src ip) (dst ip)
          proto_name length info tag in
  Ok (set_packet_tree (packet_tree self ++ [packet_data]) self).

Definition update_conversations_list (self : App) : App :=
  let sorted_convs :=
    Py.sorted Nat.ltb (fun item => Conv.count (snd item)) true
              (conversations self) in
  set_conv_scroll_frame
    (map (fun '((ip1, ip2) as conv_key, data) =>
            mkButton ip1 ip2 (Conv.count data) conv_key)
         sorted_convs)
    self.

(** [update_network_map] returns what it draws.  For a selected
    conversation [node_sizes] is a list of two sizes, and
    [nx.draw_networkx_nodes] raises [ValueError] unless the graph has
    as many nodes; the canvas is then left as it was. *)
Definition update_network_map (self : App) : result App Drawing :=
  let '(g, title) :=
    match selected_conversation self with
    | Some (ip1, ip2) =>
        (Nx.add_edge ∅ ip1 ip2,
         ("Diagram: " ++ ip1 ++ " " ++ arrow ++ " " ++ ip2)%string)
    | None => (graph self, "Overall Network Communication Map")
    end in
  if decide (Nx.nodes g = ∅) then Ok (mkDrawing title g None)
  else
    let node_sizes :=
      match selected_conversation self with
      | Some _ => SizesInOrder [3000; 3000]
      | None =>
          SizesByDegree
            (map_imap (fun node _ => Some (Nx.degree g node * 100 + 300)) g)
      end in
    let node_colors :=
      map_imap
        (fun node _ =>
           Some (if decide (node = local_ip host) then "#FFD700" else "#1E90FF"))
        g in
    match node_sizes with
    | SizesInOrder sizes =>
        if decide (List.length sizes = size (Nx.nodes g))
        then Ok (mkDrawing title g (Some (node_sizes, node_colors)))
        else Raise ValueError self
    | SizesByDegree _ => Ok (mkDrawing title g (Some (node_sizes, node_colors)))
    end.

Definition _process_packet (self : App) (packet : Packet) : result App App :=
  if negb (has_IP packet) then Ok self else
  ip ← get_IP self packet;
  let conversation_key := conversation_key (src ip) (dst ip) in
  let self :=
    set_conversations
      (DefaultDict.alter Conv.incr_count conversation_key
         (DefaultDict.touch conversation_key (conversations self))) self in
  let self :=
    set_conversations
      (DefaultDict.alter (Conv.append packet) conversation_key
         (DefaultDict.touch conversation_key (conversations self))) self in
  let self := set_packets (packets self ++ [packet]) self in
  self ←
    (if decide (selected_conversation self = None
                \/ selected_conversation self = Some conversation_key)
     then add_packet_to_tree self packet
     else Ok self);
  Ok (update_conversations_list self).

(** A [for] loop whose body may raise. *)
Fixpoint for_each {S A : Type} (body : S -> A -> result S S) (l : list A) (s : S)
  : result S S :=
  match l with
  | [] => Ok s
  | x :: l' => s' ← body s x; for_each body l' s'
  end.

(** The two calls of [get_ip_info] only touch the text boxes. *)
Definition select_conversation (self : App) (conv_key : FlowKey)
  : result App App :=
  let self := set_selected_conversation (Some conv_key) self in
  let self := set_packet_tree [] self in
  let stored := Conv.packets (DefaultDict.getitem conv_key (conversations self)) in
  let self :=
    set_conversations (DefaultDict.touch conv_key (conversations self)) self in
  self ← for_each add_packet_to_tree stored self;
  _ ← update_network_map self;
  Ok self.

Definition clear_data (self : App) : result App App :=
  let self := set_packets [] self in
  let self := set_conversations [] self in
  let self := set_selected_conversation None self in
  let self := set_graph (Nx.clear (graph self)) self in
  let self := set_packet_tree [] self in
  let self := update_conversations_list self in
  _ ← update_network_map self;
  Ok self.

Definition start_sniffing (self : App) : App :=
  let self := set_is_sniffing true self in
  set_graph (Nx.clear (graph self)) self.   (* Clear graph for new session *)

Definition stop_sniffing (self : App) : result App App :=
  let self := set_is_sniffing false self in
  _ ← update_network_map self;
  Ok self.

Definition packet_callback (self : App) (packet : Packet) : result App App :=
  if has_IP packet then
    ip ← get_IP self packet;
    let self := set_graph (Nx.add_edge (graph self) (src ip) (dst ip)) self in
    Ok (set_after_callbacks (after_callbacks self ++ [packet]) self)
  else Ok self.

(** What the file dialog and the file give to [upload_pcap]. *)
Inductive PcapChoice : Type :=
| Cancelled                         (* no file chosen *)
| Unreadable                        (* rdpcap raises *)
| Capture (records : list Packet).  (* a capture file with these records *)

(** [try: ... except Exception as e: print(...)]: the exception is
    printed and the state stays as it was reached. *)
Definition try_except (body : result App App) : result App App :=
  match body with
  | Ok self => Ok self
  | Raise _ self => Ok self
  end.

Definition upload_pcap (self : App) (choice : PcapChoice) : result App App :=
  match choice with
  | Cancelled => Ok self
  | Unreadable => self ← clear_data self; try_except (Raise Scapy_Exception self)
  | Capture records =>
      self ← clear_data self;
      try_except
        (let packets := Scapy.rdpcap records in
         self ← for_each packet_callback packets self;
         _ ← update_network_map self;
         Ok self)
  end.

Definition columns : list string :=
  ["No."; "Time"; "Source"; "Destination"; "Protocol"; "Length"; "Info"].

(** [download_csv]: what is written, header first, or nothing when the
    table is empty or no file is chosen ([filepath] empty). *)
Definition download_csv (self : App) (filepath : string)
  : option (list string * list Row) :=
  match packet_tree self with
  | [] => None
  | _ :: _ =>
      if decide (filepath = "") then None
      else Some (columns, packet_tree self)
  end.

(** The Tk main loop, once idle, takes the callbacks that are pending
    and runs them one at a time, oldest first. *)
Fixpoint run_callbacks (n : nat) (self : App) : App :=
  match n, after_callbacks self with
  | S n', packet :: rest =>
      run_callbacks n'
        (CallWrapper (_process_packet (set_after_callbacks rest self) packet))
  | _, _ => self
  end.

Definition mainloop_idle (self : App) : App :=
  run_callbacks (List.length (after_callbacks self)) self.

(** ** Operations

    What the user and the packet source can make the application do,
    each taken up to the point where the main loop is idle again: the
    callback a packet schedules runs before the next operation.  The
    buttons are Tk commands, called through [CallWrapper]. *)

Inductive Op : Type :=
| Ingest (packet : Packet)        (* [sniff] delivers one packet *)
| StartSniffing
| StopSniffing
| ClearData
| ClickConversation (i : nat)     (* the i-th button of the panel *)
| UploadPcap (choice : PcapChoice).

Definition do_op (self : App) (op : Op) : result App App :=
  match op with
  | Ingest packet =>
      self' ← packet_callback self (Scapy.sniffed packet);
      Ok (mainloop_idle self')
  | StartSniffing => Ok (start_sniffing self)
  | StopSniffing => Ok (CallWrapper (stop_sniffing self))
  | ClearData => Ok (CallWrapper (clear_data self))
  | ClickConversation i =>
      match conv_scroll_frame self !! i with
      | Some btn => Ok (CallWrapper (select_conversation self (btn_command btn)))
      | None => Ok self
      end
  | UploadPcap choice => Ok (mainloop_idle (CallWrapper (upload_pcap self choice)))
  end.

Definition run (ops : list Op) (self : App) : result App App :=
  for_each do_op ops self.

(** The states the application can be in when idle. *)
Definition reachable (self : App) : Prop :=
  exists ops, run ops init = Ok self.

(** ** Events

    The same, one handler of the main loop at a time: between the
    callback of a packet and the processing it schedules, anything else
    may come.  The packet of a callback is any packet, from [sniff] or
    from a capture file. *)

Inductive step : App -> App -> Prop :=
| step_packet self packet self' :
    packet_callback self packet = Ok self' -> step self self'
| step_dispatch self packet rest :
    after_callbacks self = packet :: rest ->
    step self
         (CallWrapper (_process_packet (set_after_callbacks rest self) packet))
| step_start self : step self (start_sniffing self)
| step_stop self : step self (CallWrapper (stop_sniffing self))
| step_clear self : step self (CallWrapper (clear_data self))
| step_click self i btn :
    conv_scroll_frame self !! i = Some btn ->
    step self (CallWrapper (select_conversation self (btn_command btn))).

(** ** Sample runs *)

(** What [run] leaves, for inspection. *)
Definition state_after (ops : list Op) : App :=
  match run ops init with
  | Ok self => self
  | Raise _ _ => init
  end.

(** Four packets of three flows. *)
Definition sample_ops : list Op :=
  [Ingest pAC; Ingest pAB; Ingest pBA; Ingest (pkt hostB hostC 1 10)].

(** Two capture sessions, one packet in the first. *)
Definition two_sessions : list Op :=
  [StartSniffing; Ingest pAB; StopSniffing; StartSniffing].

(** A packet of another flow while a conversation is selected. *)
Definition filtered_ops : list Op :=
  [Ingest pAB; ClickConversation 0; Ingest pAC; Ingest pAB].

(** A capture file of two flows, and then a packet from the network. *)
Definition file_then_live : list Op :=
  [UploadPcap (Capture [pAB; pAC]); Ingest pBA].

(** * Vocabulary of the properties *)

(** ** The methods in closed form *)

(** What [_process_packet] does to the dictionary, in one step. *)
Definition record_packet (k : FlowKey) (p : Packet) (d : DefaultDict.t)
  : DefaultDict.t :=
  DefaultDict.alter (Conv.append p ∘ Conv.incr_count) k (DefaultDict.touch k d).

(** The row [add_packet_to_tree] makes when the log holds [n] packets
    and the table [items] rows. *)
Definition displayed_row (n items : nat) (packet : Packet) (ip : IPLayer) : Row :=
  mkRow n
        (Py.strftime_HMS
           (Scapy.seconds packet + utcoffset host (Scapy.seconds packet)))
        (src ip) (dst ip)
        (proto_name (proto ip)) (wire_len packet) (summary packet)
        (if (items mod 2 =? 0)%nat then evenrow else oddrow).

(** Whether a packet of flow [k] is shown as it comes in. *)
Definition surfaced (self : App) (k : FlowKey) : bool :=
  bool_decide (selected_conversation self = None
               \/ selected_conversation self = Some k).

(** The state in which [_process_packet] calls [add_packet_to_tree]:
    the packet is in the log and in its conversation. *)
Definition recorded (self : App) (packet : Packet) (ip : IPLayer) : App :=
  mkApp (packets self ++ [packet])
        (record_packet (conversation_key (src ip) (dst ip)) packet
                       (conversations self))
        (selected_conversation self) (graph self) (is_sniffing self)
        (packet_tree self) (conv_scroll_frame self) (after_callbacks self).

(** The state [_process_packet] leaves for a packet with the IP layer
    [ip], whether it returns or raises: when the packet is to be shown
    and its time is no float, [add_packet_to_tree] raises, and neither
    the table nor the panel is touched. *)
Definition processed (self : App) (packet : Packet) (ip : IPLayer) : App :=
  if surfaced self (conversation_key (src ip) (dst ip)) then
    if float_time packet then
      update_conversations_list
        (set_packet_tree
           (packet_tree self ++
            [displayed_row (S (List.length (packets self)))
                           (List.length (packet_tree self)) packet ip])
           (recorded self packet ip))
    else recorded self packet ip
  else update_conversations_list (recorded self packet ip).

(** The state [clear_data] leaves. *)
Definition cleared (self : App) : App :=
  mkApp [] [] None ∅ (is_sniffing self) [] [] (after_callbacks self).

(** ** First appearance of a flow *)

(** The flow a packet belongs to. *)
Definition packet_key (p : Packet) : option FlowKey :=
  (fun ip => conversation_key (src ip) (dst ip)) <$> ip_layer p.

(** Position in the log of the first packet of flow [k]. *)
Fixpoint first_seen (k : FlowKey) (log : list Packet) : option nat :=
  match log with
  | [] => None
  | p :: log' =>
      if decide (packet_key p = Some k) then Some 0
      else S <$> first_seen k log'
  end.

(** ** Panel and table *)

(** The button [update_conversations_list] makes for one entry. *)
Definition button_of (item : FlowKey * Conv.t) : Button :=
  let '((ip1, ip2) as conv_key, data) := item in
  mkButton ip1 ip2 (Conv.count data) conv_key.

(** [sorted_convs] of [update_conversations_list]. *)
Definition sorted_convs (d : DefaultDict.t) : DefaultDict.t :=
  Py.sorted Nat.ltb (fun item => Conv.count item.2) true d.

(** The rows the loop of [select_conversation] makes for the packets
    [l], the log holding [n] packets and the table [items] rows: it
    ends at the first packet for which [add_packet_to_tree] raises. *)
Fixpoint rows_for (n items : nat) (l : list Packet) : list Row :=
  match l with
  | [] => []
  | p :: l' =>
      match ip_layer p with
      | Some ip =>
          if float_time p
          then displayed_row n items p ip :: rows_for n (S items) l'
          else []
      | None => []
      end
  end.

(** The packets of [l] the loop gets through before it ends. *)
Fixpoint shown_prefix (l : list Packet) : list Packet :=
  match l with
  | [] => []
  | p :: l' => if has_IP p && float_time p then p :: shown_prefix l' else []
  end.

(** A row shows a packet when its address, length and summary columns
    are the packet's. *)
Definition row_shows (r : Row) (p : Packet) : Prop :=
  exists ip, ip_layer p = Some ip
    /\ row_source r = src ip /\ row_destination r = dst ip
    /\ row_protocol r = proto_name (proto ip)
    /\ row_length r = wire_len p /\ row_info r = summary p.

(** The packets of [log] whose time is a float, each with its position
    in the log, the first position being [n]. *)
Fixpoint numbered_live (n : nat) (log : list Packet) : list (nat * Packet) :=
  match log with
  | [] => []
  | p :: log' =>
      (if float_time p then [(n, p)] else []) ++ numbered_live (S n) log'
  end.

(** The row [r] has the number and shows the packet of [np]. *)
Definition row_numbered (r : Row) (np : nat * Packet) : Prop :=
  row_no r = np.1 /\ row_shows r np.2.

(** The packets of the log that belong to flow [k], in order. *)
Definition log_of_flow (k : FlowKey) (log : list Packet) : list Packet :=
  filter (fun p => packet_key p = Some k) log.

(** The sum of the counts of all conversations. *)
Definition total_count (d : DefaultDict.t) : nat :=
  sum_list_with (fun item => Conv.count item.2) d.

(** The tag of the row at position [i]. *)
Definition stripe (i : nat) : Tag :=
  if (i mod 2 =? 0)%nat then evenrow else oddrow.

(** The packets the table is to show: all of the log, or those of the
    selected conversation. *)
Definition in_view (self : App) : list Packet :=
  match selected_conversation self with
  | None => packets self
  | Some k => log_of_flow k (packets self)
  end.

(** A button stands for a conversation of the store [d], with a count
    that is not above the stored one. *)
Definition button_ok (d : DefaultDict.t) (btn : Button) : Prop :=
  (btn_ip1 btn, btn_ip2 btn) = btn_command btn
  /\ exists c, DefaultDict.lookup (btn_command btn) d = Some c
               /\ btn_count btn <= Conv.count c.

(** The panel is up to date, or empty. *)
Definition panel_fresh (self : App) : Prop :=
  conv_scroll_frame self = map button_of (sorted_convs (conversations self))
  \/ conv_scroll_frame self = [].

(** ** Invariants *)

(** What holds of log, store, panel and table in every state. *)
Record store_ok (self : App) : Prop := StoreOk {
  ok_count :
    Forall (fun item => Conv.count item.2 = List.length (Conv.packets item.2))
           (conversations self);
  ok_stored :
    Forall (fun item => Forall (fun p => is_Some (ip_layer p)) (Conv.packets item.2))
           (conversations self);
  (* one entry for a pair of addresses *)
  ok_nodup : NoDup (DefaultDict.keys (conversations self));
  ok_frame : Forall (button_ok (conversations self)) (conv_scroll_frame self);
  ok_log :
    Forall (fun p => exists k, packet_key p = Some k
                               /\ k ∈ DefaultDict.keys (conversations self))
           (packets self);
  ok_seen :
    Forall (fun k => is_Some (first_seen k (packets self)))
           (DefaultDict.keys (conversations self));
  ok_order :
    forall i j k1 k2, i < j ->
      DefaultDict.keys (conversations self) !! i = Some k1 ->
      DefaultDict.keys (conversations self) !! j = Some k2 ->
      exists n1 n2, first_seen k1 (packets self) = Some n1
                    /\ first_seen k2 (packets self) = Some n2 /\ n1 < n2;
  ok_tree_bound :
    Forall (fun r => row_no r <= List.length (packets self)) (packet_tree self);
  ok_tree_live :
    selected_conversation self = None ->
    Forall2 row_numbered (packet_tree self) (numbered_live 1 (packets self))
}.

(** The states in which the main loop has nothing left to run. *)
Definition idle_ok (self : App) : Prop :=
  store_ok self /\ after_callbacks self = [] /\ panel_fresh self.

(** What holds of store, log and table besides. *)
Record view_ok (self : App) : Prop := ViewOk {
  (* a conversation holds the packets of the log with its key *)
  view_flows :
    forall k, Conv.packets (DefaultDict.getitem k (conversations self)) =
              log_of_flow k (packets self);
  (* every logged packet is counted once *)
  view_total : total_count (conversations self) = List.length (packets self);
  (* the two addresses of a key are in order *)
  view_keys_sorted :
    Forall (fun k => lex_le k.1 k.2) (DefaultDict.keys (conversations self));
  (* with a selection, the table is the selected conversation, as long
     as the times of its packets are floats *)
  view_filtered :
    forall k, selected_conversation self = Some k ->
      Forall (fun p => float_time p = true)
             (Conv.packets (DefaultDict.getitem k (conversations self))) ->
      Forall2 row_shows (packet_tree self)
              (Conv.packets (DefaultDict.getitem k (conversations self)));
  (* rows are striped by position *)
  view_stripes :
    forall i r, packet_tree self !! i = Some r -> row_tag r = stripe i
}.

(** ** Graph and store *)

(** Every edge joins the two addresses of a stored flow. *)
Definition edges_are_flows (self : App) : Prop :=
  forall a b, Nx.has_edge (graph self) a b = true ->
    conversation_key a b ∈ DefaultDict.keys (conversations self).

(** The two addresses of every stored flow are joined by an edge. *)
Definition flows_are_edges (self : App) : Prop :=
  forall k, k ∈ DefaultDict.keys (conversations self) ->
    Nx.has_edge (graph self) k.1 k.2 = true.

(** The flow keys of the store and the edges of the graph are the same
    unordered pairs. *)
Definition graph_store_consistent (self : App) : Prop :=
  edges_are_flows self /\ flows_are_edges self.

(** [edges_are_flows] with the callbacks that are still pending: an
    edge may be ahead of the store by the packets that wait to be
    processed. *)
Definition edges_accounted (self : App) : Prop :=
  forall a b, Nx.has_edge (graph self) a b = true ->
    conversation_key a b ∈ DefaultDict.keys (conversations self)
    \/ exists p, p ∈ after_callbacks self
                 /\ packet_key p = Some (conversation_key a b).

(** [flows_are_edges], and the packets that wait to be processed have
    their edge already. *)
Definition flows_joined (self : App) : Prop :=
  flows_are_edges self
  /\ forall p ip, p ∈ after_callbacks self -> ip_layer p = Some ip ->
       Nx.has_edge (graph self) (src ip) (dst ip) = true
       /\ Nx.has_edge (graph self) (dst ip) (src ip) = true.

(** What an operation does to the agreement of graph and store, [b]
    telling whether they agreed before: starting a capture session
    while the store holds conversations loses it, clearing restores
    it. *)
Definition keeps_step (op : Op) (self : App) (b : bool) : bool :=
  match op with
  | StartSniffing => bool_decide (conversations self = [])
  | ClearData => true
  | UploadPcap Unreadable => true
  | UploadPcap (Capture _) => true
  | _ => b
  end.

(** Whether graph and store agree after [ops], run from [self]. *)
Fixpoint graph_in_step (ops : list Op) (self : App) (b : bool) : bool :=
  match ops with
  | [] => b
  | op :: ops' =>
      match do_op self op with
      | Ok self' => graph_in_step ops' self' (keeps_step op self b)
      | Raise _ _ => false
      end
  end.

(** The graph is undirected and has no node without a neighbour. *)
Definition graph_ok (g : Nx.Graph) : Prop :=
  (forall u v, v ∈ Nx.neighbors g u -> u ∈ Nx.neighbors g v)
  /\ (forall u, u ∈ Nx.nodes g -> exists v, v ∈ Nx.neighbors g u).

(** The graph after the edges of the packets [pkts] are added to [g]. *)
Definition edges_of (pkts : list Packet) (g : Nx.Graph) : Nx.Graph :=
  fold_left
    (fun g p =>
       match ip_layer p with
       | Some ip => Nx.add_edge g (src ip) (dst ip)
       | None => g
       end)
    pkts g.

(** ** The packet log *)

(** What an operation makes of the packets accepted since the last
    clear: a packet with an IP layer is added at the end, a clear or a
    new capture file starts over. *)
Definition accept (op : Op) (log : list Packet) : list Packet :=
  match op with
  | Ingest packet =>
      if has_IP packet then log ++ [Scapy.sniffed packet] else log
  | ClearData => []
  | UploadPcap Unreadable => []
  | UploadPcap (Capture records) => List.filter has_IP (Scapy.rdpcap records)
  | _ => log
  end.

(** The packets accepted since the last clear, in the order of their
    arrival. *)
Definition accepted_log (ops : list Op) : list Packet :=
  fold_left (fun log op => accept op log) ops [].

(** * The effects of the handlers

    What one handler can make of the state, in closed form, whether it
    returns or raises: nothing else ever changes it. *)

Inductive effect (self : App) : App -> Prop :=
| effect_edge packet ip :
    (* packet_callback on a packet with an IP layer *)
    ip_layer packet = Some ip ->
    effect self
      (mkApp (packets self) (conversations self) (selected_conversation self)
             (Nx.add_edge (graph self) (src ip) (dst ip)) (is_sniffing self)
             (packet_tree self) (conv_scroll_frame self)
             (after_callbacks self ++ [packet]))
| effect_record packet ip rest :
    (* the main loop runs _process_packet on the oldest pending packet *)
    after_callbacks self = packet :: rest ->
    ip_layer packet = Some ip ->
    effect self (processed (set_after_callbacks rest self) packet ip)
| effect_other g b q :
    (* start_sniffing, stop_sniffing, and packets without an IP layer *)
    g = graph self \/ g = ∅ ->
    effect self
      (mkApp (packets self) (conversations self) (selected_conversation self)
             g b (packet_tree self) (conv_scroll_frame self) q)
| effect_clear :
    effect self (cleared self)
| effect_select conv_key :
    (* select_conversation from a button of the panel *)
    conv_key ∈ DefaultDict.keys (conversations self) ->
    effect self
      (mkApp (packets self) (conversations self) (Some conv_key)
             (graph self) (is_sniffing self)
             (rows_for (List.length (packets self)) 0
                (Conv.packets (DefaultDict.getitem conv_key (conversations self))))
             (conv_scroll_frame self) (after_callbacks self)).

(** ** A clear between a callback and its processing *)

(** The callback of a packet has added its edge. *)
Definition edge_ahead : App :=
  CallWrapper (packet_callback init pAB).

(** ... a clear comes, and then the main loop processes the packet. *)
Definition processed_after_clear : App :=
  mainloop_idle (CallWrapper (clear_data edge_ahead)).

(** ** A capture file while a packet waits to be processed *)

(** The callback of a packet from the network has run, the user loads
    a capture file with a packet of the same flow, and the main loop
    processes both: the first rebuilds the panel, the second raises
    before it does. *)
Definition stale_panel : App :=
  mainloop_idle
    (CallWrapper
       (packet_callback
          (CallWrapper (clear_data (CallWrapper (packet_callback init pAB))))
          (Scapy.read pBA))).

(** * Properties *)

Local Open Scope list_scope.

(** ** Outcomes *)

Lemma bind_Ok {S A B} (m : result S A) (f : A -> result S B) (b : B) :
  (m ≫= f) = Ok b -> exists a, m = Ok a /\ f a = Ok b.
Proof. destruct m as [a|e s]; simpl; [eauto | discriminate]. Qed.

Lemma get_IP_Some {S} (s : S) packet ip :
  ip_layer packet = Some ip -> get_IP s packet = Ok ip.
Proof. unfold get_IP. by intros ->. Qed.

Lemma has_IP_Some packet ip : ip_layer packet = Some ip -> has_IP packet = true.
Proof. unfold has_IP. by intros ->. Qed.

Lemma has_IP_None packet : ip_layer packet = None -> has_IP packet = false.
Proof. unfold has_IP. by intros ->. Qed.

Lemma float_time_sniffed packet : float_time (Scapy.sniffed packet) = true.
Proof. reflexivity. Qed.

Lemma float_time_read packet : float_time (Scapy.read packet) = false.
Proof. reflexivity. Qed.

Lemma sniffed_float_time packet :
  float_time packet = true -> Scapy.sniffed packet = packet.
Proof.
  destruct packet as [ip [secs|secs] len info]; [done|].
  intros H. discriminate H.
Qed.

(** ** Flow keys *)

Lemma conversation_key_unfold a b :
  conversation_key a b = if String.ltb b a then (b, a) else (a, b).
Proof.
  unfold conversation_key, Py.sorted. simpl. unfold id.
  by destruct (String.ltb b a).
Qed.

Lemma string_ltb_asym a b : String.ltb a b = true -> String.ltb b a = false.
Proof.
  unfold String.ltb. rewrite (String.compare_antisym a b).
  by destruct (String.compare b a).
Qed.

Lemma string_ltb_total a b :
  String.ltb a b = false -> String.ltb b a = false -> a = b.
Proof.
  unfold String.ltb. rewrite (String.compare_antisym a b).
  destruct (String.compare b a) eqn:E; try discriminate.
  intros _ _. symmetry. by apply String.compare_eq_iff.
Qed.

Lemma compare_not_Gt_lex_le a b : String.compare a b <> Gt -> lex_le a b.
Proof.
  revert b. induction a as [|c a IH]; intros b H.
  - constructor.
  - destruct b as [|c' b]; simpl in H; [done|].
    unfold Ascii.compare in H.
    destruct (N.compare_spec (Ascii.N_of_ascii c) (Ascii.N_of_ascii c')) as [E|E|E].
    + apply (f_equal Ascii.ascii_of_N) in E.
      rewrite !Ascii.ascii_N_embedding in E. subst c'.
      apply lex_le_tail. by apply IH.
    + by apply lex_le_head.
    + done.
Qed.

Lemma conversation_key_sorted a b :
  lex_le (conversation_key a b).1 (conversation_key a b).2.
Proof.
  rewrite conversation_key_unfold.
  destruct (String.ltb b a) eqn:E; simpl; apply compare_not_Gt_lex_le.
  - unfold String.ltb in E. destruct (String.compare b a); done.
  - unfold String.ltb in E. rewrite String.compare_antisym.
    destruct (String.compare b a); done.
Qed.

Lemma conversation_key_sym a b : conversation_key a b = conversation_key b a.
Proof.
  rewrite !conversation_key_unfold.
  destruct (String.ltb b a) eqn:E1.
  - by rewrite (string_ltb_asym _ _ E1).
  - destruct (String.ltb a b) eqn:E2; [done|].
    by rewrite (string_ltb_total _ _ E2 E1).
Qed.

Lemma conversation_key_same a : conversation_key a a = (a, a).
Proof. rewrite conversation_key_unfold. by destruct (String.ltb a a). Qed.

(** C3.  The flow key of a packet from [a] to [b] is the flow key of a
    packet from [b] to [a]: it is the pair of the two addresses, in
    lexicographic order. *)
Theorem flow_key_canonical (a b : string) :
  conversation_key a b = conversation_key b a
  /\ (conversation_key a b = (a, b) \/ conversation_key a b = (b, a))
  /\ lex_le (conversation_key a b).1 (conversation_key a b).2.
Proof.
  split; [apply conversation_key_sym|]. split; [|apply conversation_key_sorted].
  rewrite conversation_key_unfold. destruct (String.ltb b a); auto.
Qed.

(** ** The conversation dictionary *)

Lemma dd_lookup_app k (d1 d2 : DefaultDict.t) :
  DefaultDict.lookup k (d1 ++ d2) =
  match DefaultDict.lookup k d1 with
  | Some v => Some v
  | None => DefaultDict.lookup k d2
  end.
Proof.
  induction d1 as [|[k' v] d1 IH]; simpl; [done|].
  by destruct (decide (k' = k)).
Qed.

Lemma dd_lookup_Some_elem k v (d : DefaultDict.t) :
  DefaultDict.lookup k d = Some v -> (k, v) ∈ d.
Proof.
  induction d as [|[k' v'] d IH]; simpl; [done|].
  destruct (decide (k' = k)) as [->|].
  - intros ?. simplify_eq. left.
  - intros H. right. auto.
Qed.

Lemma dd_lookup_None_keys k (d : DefaultDict.t) :
  DefaultDict.lookup k d = None <-> k ∉ DefaultDict.keys d.
Proof.
  unfold DefaultDict.keys. induction d as [|[k' v'] d IH]; simpl.
  - split; [intros _; apply not_elem_of_nil | done].
  - rewrite not_elem_of_cons. destruct (decide (k' = k)) as [->|].
    + split; [done | by intros [? _]].
    + rewrite IH. split; [intros H; split; [congruence|done] | by intros [_ H]].
Qed.

Lemma dd_lookup_is_Some_keys k (d : DefaultDict.t) :
  is_Some (DefaultDict.lookup k d) <-> k ∈ DefaultDict.keys d.
Proof.
  destruct (DefaultDict.lookup k d) eqn:E.
  - split; [intros _|eauto].
    destruct (decide (k ∈ DefaultDict.keys d)) as [|Hn]; [done|].
    apply dd_lookup_None_keys in Hn. congruence.
  - split; [by intros [? ?]|]. intros Hin. by apply dd_lookup_None_keys in E.
Qed.

Lemma dd_touch_present k (d : DefaultDict.t) :
  is_Some (DefaultDict.lookup k d) -> DefaultDict.touch k d = d.
Proof. unfold DefaultDict.touch. by intros [v ->]. Qed.

Lemma dd_lookup_touch_eq k (d : DefaultDict.t) :
  DefaultDict.lookup k (DefaultDict.touch k d) = Some (DefaultDict.getitem k d).
Proof.
  unfold DefaultDict.touch, DefaultDict.getitem.
  destruct (DefaultDict.lookup k d) eqn:E; simpl; [done|].
  rewrite dd_lookup_app, E. simpl. by rewrite decide_True.
Qed.

Lemma dd_lookup_touch_ne k k' (d : DefaultDict.t) :
  k <> k' -> DefaultDict.lookup k' (DefaultDict.touch k d) = DefaultDict.lookup k' d.
Proof.
  intros Hne. unfold DefaultDict.touch. destruct (DefaultDict.lookup k d); [done|].
  rewrite dd_lookup_app. simpl. rewrite decide_False by done.
  by destruct (DefaultDict.lookup k' d).
Qed.

Lemma dd_lookup_alter_eq f k (d : DefaultDict.t) :
  DefaultDict.lookup k (DefaultDict.alter f k d) = f <$> DefaultDict.lookup k d.
Proof.
  induction d as [|[k' v] d IH]; simpl; [done|].
  destruct (decide (k' = k)) as [->|Hne]; simpl.
  - by rewrite decide_True.
  - by rewrite decide_False.
Qed.

Lemma dd_lookup_alter_ne f k k' (d : DefaultDict.t) :
  k <> k' ->
  DefaultDict.lookup k' (DefaultDict.alter f k d) = DefaultDict.lookup k' d.
Proof.
  intros Hne. induction d as [|[k0 v] d IH]; simpl; [done|].
  destruct (decide (k0 = k)) as [->|Hne0]; simpl.
  - by rewrite !decide_False.
  - destruct (decide (k0 = k')); [done|apply IH].
Qed.

Lemma dd_keys_alter f k (d : DefaultDict.t) :
  DefaultDict.keys (DefaultDict.alter f k d) = DefaultDict.keys d.
Proof.
  unfold DefaultDict.keys. induction d as [|[k' v] d IH]; simpl; [done|].
  destruct (decide (k' = k)); simpl; [done|]. f_equal. apply IH.
Qed.

Lemma dd_alter_alter f g k (d : DefaultDict.t) :
  DefaultDict.alter f k (DefaultDict.alter g k d) = DefaultDict.alter (f ∘ g) k d.
Proof.
  induction d as [|[k' v] d IH]; simpl; [done|].
  destruct (decide (k' = k)) as [->|Hne]; simpl.
  - by rewrite decide_True.
  - rewrite decide_False by done. by rewrite IH.
Qed.

Lemma dd_keys_touch k (d : DefaultDict.t) :
  DefaultDict.keys (DefaultDict.touch k d) =
  if decide (k ∈ DefaultDict.keys d) then DefaultDict.keys d
  else DefaultDict.keys d ++ [k].
Proof.
  unfold DefaultDict.touch. destruct (DefaultDict.lookup k d) eqn:E.
  - rewrite decide_True; [done|]. apply dd_lookup_is_Some_keys. eauto.
  - rewrite decide_False by by apply dd_lookup_None_keys.
    unfold DefaultDict.keys. by rewrite fmap_app.
Qed.

Lemma dd_lookup_of_elem k c (d : DefaultDict.t) :
  NoDup (DefaultDict.keys d) -> (k, c) ∈ d -> DefaultDict.lookup k d = Some c.
Proof.
  unfold DefaultDict.keys. induction d as [|[k0 c0] d IH]; simpl.
  - intros _ H. by apply elem_of_nil in H.
  - intros Hnd H. apply NoDup_cons in Hnd as [Hk0 Hnd].
    apply elem_of_cons in H as [[= -> ->]|H].
    + by rewrite decide_True.
    + rewrite decide_False; [by apply IH|].
      intros ->. apply Hk0. apply list_elem_of_fmap. by exists (k, c).
Qed.

Lemma record_packet_eq k p (d : DefaultDict.t) :
  DefaultDict.alter (Conv.append p) k
    (DefaultDict.touch k
       (DefaultDict.alter Conv.incr_count k (DefaultDict.touch k d)))
  = record_packet k p d.
Proof.
  unfold record_packet.
  rewrite dd_touch_present.
  - apply dd_alter_alter.
  - rewrite dd_lookup_alter_eq, dd_lookup_touch_eq.
    simpl. eauto.
Qed.

Lemma lookup_record_packet_eq k p (d : DefaultDict.t) :
  DefaultDict.lookup k (record_packet k p d) =
  Some (Conv.mk (Conv.count (DefaultDict.getitem k d) + 1)
                (Conv.packets (DefaultDict.getitem k d) ++ [p])).
Proof.
  unfold record_packet.
  by rewrite dd_lookup_alter_eq, dd_lookup_touch_eq.
Qed.

Lemma lookup_record_packet_ne k k' p (d : DefaultDict.t) :
  k <> k' ->
  DefaultDict.lookup k' (record_packet k p d) = DefaultDict.lookup k' d.
Proof.
  intros Hne. unfold record_packet.
  by rewrite dd_lookup_alter_ne, dd_lookup_touch_ne.
Qed.

Lemma keys_record_packet k p (d : DefaultDict.t) :
  DefaultDict.keys (record_packet k p d) =
  if decide (k ∈ DefaultDict.keys d) then DefaultDict.keys d
  else DefaultDict.keys d ++ [k].
Proof.
  unfold record_packet.
  by rewrite dd_keys_alter, dd_keys_touch.
Qed.

Lemma getitem_record_packet_eq k p (d : DefaultDict.t) :
  DefaultDict.getitem k (record_packet k p d) =
  Conv.mk (Conv.count (DefaultDict.getitem k d) + 1)
          (Conv.packets (DefaultDict.getitem k d) ++ [p]).
Proof. unfold DefaultDict.getitem at 1. by rewrite lookup_record_packet_eq. Qed.

Lemma getitem_record_packet_ne k k' p (d : DefaultDict.t) :
  k <> k' ->
  DefaultDict.getitem k' (record_packet k p d) = DefaultDict.getitem k' d.
Proof.
  intros Hne. unfold DefaultDict.getitem. by rewrite lookup_record_packet_ne.
Qed.

(** ** The graph *)

Lemma nx_elem_of_neighbors_add_edge (g : Nx.Graph) u v a x :
  x ∈ Nx.neighbors (Nx.add_edge g u v) a <->
  x ∈ Nx.neighbors g a \/ (a = u /\ x = v) \/ (a = v /\ x = u).
Proof.
  unfold Nx.add_edge, Nx.neighbors.
  destruct (decide (a = v)) as [Hv|Hv], (decide (a = u)) as [Hu|Hu]; subst;
    rewrite ?lookup_insert_eq, ?lookup_insert_ne by done; simpl;
    rewrite ?lookup_insert_eq, ?lookup_insert_ne by done; simpl;
    rewrite ?elem_of_union, ?elem_of_singleton; intuition congruence.
Qed.

Lemma nx_has_edge_add_edge (g : Nx.Graph) u v a b :
  Nx.has_edge (Nx.add_edge g u v) a b = true <->
  Nx.has_edge g a b = true \/ (a = u /\ b = v) \/ (a = v /\ b = u).
Proof.
  unfold Nx.has_edge. rewrite !bool_decide_eq_true.
  apply nx_elem_of_neighbors_add_edge.
Qed.

Lemma nx_has_edge_empty a b : Nx.has_edge ∅ a b = false.
Proof.
  unfold Nx.has_edge, Nx.neighbors. rewrite lookup_empty. simpl.
  apply bool_decide_eq_false, not_elem_of_empty.
Qed.

Lemma nodes_add_edge (g : Nx.Graph) a b u :
  u ∈ Nx.nodes (Nx.add_edge g a b) <-> u = a \/ u = b \/ u ∈ Nx.nodes g.
Proof.
  unfold Nx.nodes, Nx.add_edge. rewrite !dom_insert_L, !elem_of_union,
    !elem_of_singleton. tauto.
Qed.

Lemma nodes_single a b : Nx.nodes (Nx.add_edge ∅ a b) = {[a; b]}.
Proof.
  apply set_eq. intros u. rewrite nodes_add_edge. unfold Nx.nodes.
  rewrite dom_empty_L, elem_of_union, !elem_of_singleton, elem_of_empty. tauto.
Qed.

Lemma size_nodes_single a b :
  size (Nx.nodes (Nx.add_edge ∅ a b)) = if decide (a = b) then 1 else 2.
Proof.
  rewrite nodes_single. destruct (decide (a = b)) as [->|Hne].
  - rewrite union_idemp_L. apply size_singleton.
  - rewrite size_union, !size_singleton; [done|].
    by apply disjoint_singleton_l, not_elem_of_singleton.
Qed.

Lemma neighbors_node (g : Nx.Graph) u v : v ∈ Nx.neighbors g u -> u ∈ Nx.nodes g.
Proof.
  unfold Nx.neighbors, Nx.nodes. intros H. apply elem_of_dom.
  destruct (g !! u); [done|]. by apply not_elem_of_empty in H.
Qed.

Lemma degree_pos (g : Nx.Graph) u v : v ∈ Nx.neighbors g u -> 1 <= Nx.degree g u.
Proof.
  intros H. unfold Nx.degree.
  assert (size (Nx.neighbors g u) <> 0); [|lia].
  intros Hz. apply size_empty_inv in Hz. rewrite Hz in H.
  by apply not_elem_of_empty in H.
Qed.

Lemma elem_of_neighbors_single a b u v :
  v ∈ Nx.neighbors (Nx.add_edge ∅ a b) u <-> (u = a /\ v = b) \/ (u = b /\ v = a).
Proof.
  rewrite nx_elem_of_neighbors_add_edge. unfold Nx.neighbors.
  rewrite lookup_empty. simpl. rewrite elem_of_empty. tauto.
Qed.

(** ** The methods, one equation each *)

Lemma add_packet_to_tree_shown self packet ip :
  ip_layer packet = Some ip -> float_time packet = true ->
  add_packet_to_tree self packet =
  Ok (set_packet_tree
        (packet_tree self ++
         [displayed_row (List.length (packets self))
                        (List.length (packet_tree self)) packet ip])
        self).
Proof.
  intros Hip Hf. unfold add_packet_to_tree, displayed_row, Scapy.seconds.
  unfold float_time in Hf. destruct (time packet) as [secs|secs];
    [|discriminate Hf].
  simpl. by rewrite (get_IP_Some _ _ _ Hip).
Qed.

Lemma add_packet_to_tree_EDecimal self packet :
  float_time packet = false ->
  add_packet_to_tree self packet = Raise TypeError self.
Proof.
  intros Hf. unfold add_packet_to_tree. unfold float_time in Hf.
  by destruct (time packet) as [secs|secs]; [discriminate Hf|].
Qed.

Lemma add_packet_to_tree_no_IP self packet :
  float_time packet = true -> ip_layer packet = None ->
  add_packet_to_tree self packet = Raise IndexError self.
Proof.
  intros Hf Hip. unfold add_packet_to_tree. unfold float_time in Hf.
  destruct (time packet) as [secs|secs]; [|discriminate Hf].
  simpl. unfold get_IP. by rewrite Hip.
Qed.

(** [update_network_map] raises only for a selected conversation of an
    address with itself, and leaves the state alone. *)
Lemma update_network_map_unselected self :
  selected_conversation self = None ->
  exists drawing, update_network_map self = Ok drawing.
Proof.
  intros Hsel. unfold update_network_map. rewrite Hsel.
  destruct (decide (Nx.nodes (graph self) = ∅)); eauto.
Qed.

Lemma nodes_single_not_empty a b : Nx.nodes (Nx.add_edge ∅ a b) <> ∅.
Proof.
  intros H. assert (a ∈ Nx.nodes (Nx.add_edge ∅ a b)) as Hin
    by (apply nodes_add_edge; auto).
  rewrite H in Hin. by apply not_elem_of_empty in Hin.
Qed.

Lemma update_network_map_same self a :
  selected_conversation self = Some (a, a) ->
  update_network_map self = Raise ValueError self.
Proof.
  intros Hsel. unfold update_network_map. rewrite Hsel.
  rewrite decide_False by apply nodes_single_not_empty.
  rewrite size_nodes_single. rewrite (decide_True (P := a = a)) by done.
  done.
Qed.

Lemma update_network_map_distinct self a b :
  selected_conversation self = Some (a, b) -> a <> b ->
  exists colors,
    update_network_map self =
    Ok (mkDrawing ("Diagram: " ++ a ++ " " ++ arrow ++ " " ++ b)%string
                  (Nx.add_edge ∅ a b)
                  (Some (SizesInOrder [3000; 3000], colors))).
Proof.
  intros Hsel Hne. unfold update_network_map. rewrite Hsel.
  rewrite decide_False by apply nodes_single_not_empty.
  rewrite size_nodes_single. rewrite (decide_False (P := a = b)) by done.
  simpl. eauto.
Qed.

Lemma update_network_map_outcome self :
  (exists drawing, update_network_map self = Ok drawing)
  \/ (update_network_map self = Raise ValueError self
      /\ exists a, selected_conversation self = Some (a, a)).
Proof.
  destruct (selected_conversation self) as [[a b]|] eqn:Hsel.
  - destruct (decide (a = b)) as [->|Hne].
    + right. split; [by apply (update_network_map_same _ b) | eauto].
    + left. destruct (update_network_map_distinct _ _ _ Hsel Hne) as [c ->].
      eauto.
  - left. by apply update_network_map_unselected.
Qed.

(** A call of [update_network_map] at the end of a handler: the state
    is the same whether it returns or raises. *)
Lemma CallWrapper_then_map self :
  CallWrapper (_ ← update_network_map self; Ok self) = self.
Proof.
  destruct (update_network_map_outcome self) as [[d ->]|[-> _]]; done.
Qed.

Lemma clear_data_eq self : clear_data self = Ok (cleared self).
Proof.
  unfold clear_data. cbv zeta.
  match goal with
  | |- context [update_network_map ?s] =>
      destruct (update_network_map_unselected s) as [d Hd]; [done|];
      rewrite Hd
  end.
  reflexivity.
Qed.

Lemma CallWrapper_clear_data self : CallWrapper (clear_data self) = cleared self.
Proof. by rewrite clear_data_eq. Qed.

Lemma CallWrapper_stop_sniffing self :
  CallWrapper (stop_sniffing self) = set_is_sniffing false self.
Proof. unfold stop_sniffing. apply CallWrapper_then_map. Qed.

Lemma _process_packet_IP self packet ip :
  ip_layer packet = Some ip ->
  _process_packet self packet =
  if surfaced self (conversation_key (src ip) (dst ip))
     && negb (float_time packet)
  then Raise TypeError (recorded self packet ip)
  else Ok (processed self packet ip).
Proof.
  intros Hip. set (k := conversation_key (src ip) (dst ip)).
  unfold _process_packet, processed.
  rewrite (has_IP_Some _ _ Hip), (get_IP_Some _ _ _ Hip). simpl.
  fold k. rewrite record_packet_eq. unfold surfaced.
  destruct (decide (selected_conversation self = None
                    \/ selected_conversation self = Some k)) as [Hs|Hs].
  - rewrite bool_decide_eq_true_2 by done. simpl.
    destruct (float_time packet) eqn:Hf; simpl.
    + rewrite (add_packet_to_tree_shown _ _ _ Hip Hf). simpl.
      by rewrite length_app, Nat.add_1_r.
    + by rewrite (add_packet_to_tree_EDecimal _ _ Hf).
  - by rewrite bool_decide_eq_false_2 by done.
Qed.

Lemma processed_not_shown self packet ip :
  surfaced self (conversation_key (src ip) (dst ip)) = true ->
  float_time packet = false ->
  processed self packet ip = recorded self packet ip.
Proof. intros Hs Hf. unfold processed. by rewrite Hs, Hf. Qed.

(** Whether [_process_packet] returns or raises, it leaves the state
    [processed]. *)
Lemma CallWrapper_process_IP self packet ip :
  ip_layer packet = Some ip ->
  CallWrapper (_process_packet self packet) = processed self packet ip.
Proof.
  intros Hip. rewrite (_process_packet_IP _ _ _ Hip).
  destruct (surfaced self _) eqn:Hs, (float_time packet) eqn:Hf; simpl;
    try done.
  symmetry. by apply processed_not_shown.
Qed.

Lemma _process_packet_no_IP self packet :
  ip_layer packet = None -> _process_packet self packet = Ok self.
Proof. intros H. unfold _process_packet. by rewrite (has_IP_None _ H). Qed.

(** A packet with a float for its time is processed without an
    exception. *)
Lemma _process_packet_float self packet ip :
  ip_layer packet = Some ip -> float_time packet = true ->
  _process_packet self packet = Ok (processed self packet ip).
Proof.
  intros Hip Hf. rewrite (_process_packet_IP _ _ _ Hip), Hf.
  by rewrite andb_false_r.
Qed.

Lemma packet_callback_IP self packet ip :
  ip_layer packet = Some ip ->
  packet_callback self packet =
  Ok (mkApp (packets self) (conversations self) (selected_conversation self)
            (Nx.add_edge (graph self) (src ip) (dst ip)) (is_sniffing self)
            (packet_tree self) (conv_scroll_frame self)
            (after_callbacks self ++ [packet])).
Proof.
  intros Hip. unfold packet_callback.
  by rewrite (has_IP_Some _ _ Hip), (get_IP_Some _ _ _ Hip).
Qed.

Lemma packet_callback_no_IP self packet :
  ip_layer packet = None -> packet_callback self packet = Ok self.
Proof. intros H. unfold packet_callback. by rewrite (has_IP_None _ H). Qed.

Lemma packet_callback_cases self packet :
  (exists ip, ip_layer packet = Some ip
     /\ packet_callback self packet =
        Ok (mkApp (packets self) (conversations self) (selected_conversation self)
                  (Nx.add_edge (graph self) (src ip) (dst ip)) (is_sniffing self)
                  (packet_tree self) (conv_scroll_frame self)
                  (after_callbacks self ++ [packet])))
  \/ (ip_layer packet = None /\ packet_callback self packet = Ok self).
Proof.
  destruct (ip_layer packet) as [ip|] eqn:Hip.
  - left. exists ip. split; [done | by apply packet_callback_IP].
  - right. split; [done | by apply packet_callback_no_IP].
Qed.

Lemma mainloop_idle_nothing_pending self :
  after_callbacks self = [] -> mainloop_idle self = self.
Proof. intros H. unfold mainloop_idle. by rewrite H. Qed.

(** The fields of [processed]. *)
Lemma processed_packets self packet ip :
  packets (processed self packet ip) = packets self ++ [packet].
Proof. unfold processed. by destruct (surfaced _ _), (float_time packet). Qed.

Lemma processed_conversations self packet ip :
  conversations (processed self packet ip) =
  record_packet (conversation_key (src ip) (dst ip)) packet (conversations self).
Proof. unfold processed. by destruct (surfaced _ _), (float_time packet). Qed.

Lemma processed_selected self packet ip :
  selected_conversation (processed self packet ip) = selected_conversation self.
Proof. unfold processed. by destruct (surfaced _ _), (float_time packet). Qed.

Lemma processed_graph self packet ip :
  graph (processed self packet ip) = graph self.
Proof. unfold processed. by destruct (surfaced _ _), (float_time packet). Qed.

Lemma processed_is_sniffing self packet ip :
  is_sniffing (processed self packet ip) = is_sniffing self.
Proof. unfold processed. by destruct (surfaced _ _), (float_time packet). Qed.

Lemma processed_after_callbacks self packet ip :
  after_callbacks (processed self packet ip) = after_callbacks self.
Proof. unfold processed. by destruct (surfaced _ _), (float_time packet). Qed.

Lemma processed_packet_tree self packet ip :
  packet_tree (processed self packet ip) =
  if surfaced self (conversation_key (src ip) (dst ip)) && float_time packet
  then packet_tree self ++
       [displayed_row (S (List.length (packets self)))
                      (List.length (packet_tree self)) packet ip]
  else packet_tree self.
Proof. unfold processed. by destruct (surfaced _ _), (float_time packet). Qed.

Lemma processed_conv_scroll_frame self packet ip :
  conv_scroll_frame (processed self packet ip) =
  if surfaced self (conversation_key (src ip) (dst ip))
     && negb (float_time packet)
  then conv_scroll_frame self
  else map button_of
         (sorted_convs
            (record_packet (conversation_key (src ip) (dst ip)) packet
                           (conversations self))).
Proof. unfold processed. by destruct (surfaced _ _), (float_time packet). Qed.

(** Processing one pending packet, with or without an IP layer. *)
Lemma dispatch_cases self packet rest :
  (exists ip, ip_layer packet = Some ip
     /\ CallWrapper (_process_packet (set_after_callbacks rest self) packet) =
        processed (set_after_callbacks rest self) packet ip)
  \/ (ip_layer packet = None
      /\ CallWrapper (_process_packet (set_after_callbacks rest self) packet) =
         set_after_callbacks rest self).
Proof.
  destruct (ip_layer packet) as [ip|] eqn:Hip.
  - left. exists ip. split; [done | by apply CallWrapper_process_IP].
  - right. split; [done|]. by rewrite (_process_packet_no_IP _ _ Hip).
Qed.

(** ** [sorted] *)

Section SortedFacts.
Context {A K : Type} (lt : K -> K -> bool) (key : A -> K).

Lemma insert_stable_perm x l : Py.insert_stable lt key x l ≡ₚ x :: l.
Proof.
  induction l as [|y l IH]; simpl; [done|].
  destruct (lt (key y) (key x)); [|done].
  rewrite IH. apply Permutation_swap.
Qed.

Lemma sort_stable_perm l : Py.sort_stable lt key l ≡ₚ l.
Proof.
  induction l as [|x l IH]; simpl; [done|].
  by rewrite insert_stable_perm, IH.
Qed.

Lemma sorted_perm rev l : Py.sorted lt key rev l ≡ₚ l.
Proof.
  unfold Py.sorted. destruct rev; [|apply sort_stable_perm].
  by rewrite reverse_Permutation, sort_stable_perm, reverse_Permutation.
Qed.
End SortedFacts.

Section SortedByNat.
Context {A : Type} (key : A -> nat).

Local Abbreviation asc := (asc_by key).
Local Abbreviation desc := (desc_by key).

Lemma insert_stable_asc x l :
  StronglySorted asc l -> StronglySorted asc (Py.insert_stable Nat.ltb key x l).
Proof.
  induction l as [|y l IH]; simpl; intros Hs.
  - repeat constructor.
  - apply StronglySorted_inv in Hs as [Hl Hy].
    destruct (Nat.ltb (key y) (key x)) eqn:E.
    + apply Nat.ltb_lt in E. constructor; [by apply IH|].
      rewrite insert_stable_perm. constructor; [unfold asc_by; lia | done].
    + apply Nat.ltb_ge in E. constructor; [by constructor|].
      constructor; [done|].
      eapply Forall_impl; [exact Hy|]. unfold asc_by in *. intros z Hz. lia.
Qed.

Lemma sort_stable_asc l : StronglySorted asc (Py.sort_stable Nat.ltb key l).
Proof.
  induction l as [|x l IH]; simpl; [constructor | by apply insert_stable_asc].
Qed.

Lemma StronglySorted_reverse_desc l :
  StronglySorted asc l -> StronglySorted desc (reverse l).
Proof.
  intros Hs. induction Hs as [|x l Hl IH Hx]; [constructor|].
  rewrite reverse_cons. apply StronglySorted_app_2; [|done|repeat constructor].
  intros x1 x2 H1 H2. apply list_elem_of_singleton in H2 as ->.
  rewrite elem_of_reverse in H1. rewrite Forall_forall in Hx.
  exact (Hx x1 H1).
Qed.

(** The reversed sort is in descending order of the key. *)
Lemma sorted_reverse_desc l :
  StronglySorted desc (Py.sorted Nat.ltb key true l).
Proof. apply StronglySorted_reverse_desc, sort_stable_asc. Qed.

Lemma insert_stable_filter c x l :
  filter (fun y => key y = c) (Py.insert_stable Nat.ltb key x l) =
  filter (fun y => key y = c) (x :: l).
Proof.
  induction l as [|y l IH]; simpl; [done|].
  destruct (Nat.ltb (key y) (key x)) eqn:E; [|done].
  apply Nat.ltb_lt in E.
  rewrite (filter_cons _ y), IH, !filter_cons.
  destruct (decide (key y = c)), (decide (key x = c)); try done; lia.
Qed.

Lemma sort_stable_filter c l :
  filter (fun y => key y = c) (Py.sort_stable Nat.ltb key l) =
  filter (fun y => key y = c) l.
Proof.
  induction l as [|x l IH]; simpl; [done|].
  by rewrite insert_stable_filter, !filter_cons, IH.
Qed.

(** The reversed sort is stable: the elements of one key are in the
    order in which the input has them. *)
Lemma sorted_reverse_filter c l :
  filter (fun y => key y = c) (Py.sorted Nat.ltb key true l) =
  filter (fun y => key y = c) l.
Proof.
  unfold Py.sorted.
  by rewrite filter_reverse, sort_stable_filter, filter_reverse,
     reverse_involutive.
Qed.
End SortedByNat.

(** ** One element in front of another *)

Lemma lookup_lt_sublist {A} (l : list A) i j x y :
  i < j -> l !! i = Some x -> l !! j = Some y -> [x; y] `sublist_of` l.
Proof.
  intros Hij Hi Hj.
  rewrite <-(take_drop_middle l i x Hi).
  apply sublist_inserts_l, sublist_skip.
  assert (drop (S i) l !! (j - S i) = Some y) as Hd.
  { rewrite lookup_drop. by replace (S i + (j - S i)) with j by lia. }
  rewrite <-(take_drop_middle _ _ _ Hd).
  apply sublist_inserts_l, sublist_skip, sublist_nil_l.
Qed.

Lemma sublist_pair_lookup {A} (l : list A) x y :
  [x; y] `sublist_of` l ->
  exists i j, i < j /\ l !! i = Some x /\ l !! j = Some y.
Proof.
  intros H. apply sublist_cons_l in H as (k1 & k2 & -> & H).
  apply sublist_cons_l in H as (k3 & k4 & -> & _).
  exists (List.length k1), (List.length k1 + S (List.length k3)).
  split; [lia|]. split.
  - by apply list_lookup_middle.
  - rewrite lookup_app_r by lia.
    replace (List.length k1 + S (List.length k3) - List.length k1)
      with (S (List.length k3)) by lia.
    simpl. by apply list_lookup_middle.
Qed.

(** ** First appearance of a flow in the log *)

Lemma first_seen_snoc k log p :
  first_seen k (log ++ [p]) =
  match first_seen k log with
  | Some n => Some n
  | None => if decide (packet_key p = Some k) then Some (List.length log) else None
  end.
Proof.
  induction log as [|q log IH]; simpl.
  - by destruct (decide (packet_key p = Some k)).
  - destruct (decide (packet_key q = Some k)); [done|].
    rewrite IH. destruct (first_seen k log); simpl; [done|].
    by destruct (decide (packet_key p = Some k)).
Qed.

Lemma first_seen_lt k log n : first_seen k log = Some n -> n < List.length log.
Proof.
  revert n. induction log as [|q log IH]; simpl; intros n; [done|].
  destruct (decide (packet_key q = Some k)).
  - intros [= <-]. lia.
  - destruct (first_seen k log) as [m|]; simpl; [|done].
    intros [= <-]. specialize (IH m eq_refl). lia.
Qed.

Lemma first_seen_lookup k log n :
  first_seen k log = Some n ->
  exists p, log !! n = Some p /\ packet_key p = Some k.
Proof.
  revert n. induction log as [|q log IH]; simpl; intros n; [done|].
  destruct (decide (packet_key q = Some k)).
  - intros [= <-]. eauto.
  - destruct (first_seen k log) as [m|]; simpl; [|done].
    intros [= <-]. apply (IH m eq_refl).
Qed.

(** ** The conversation panel *)

Lemma update_conversations_list_frame self :
  conv_scroll_frame (update_conversations_list self) =
  map button_of (sorted_convs (conversations self)).
Proof. reflexivity. Qed.

Lemma btn_command_button_of item : btn_command (button_of item) = item.1.
Proof. by destruct item as [[a b] c]. Qed.

Lemma btn_count_button_of item : btn_count (button_of item) = Conv.count item.2.
Proof. by destruct item as [[a b] c]. Qed.

Lemma button_in_frame_key (d : DefaultDict.t) btn :
  btn ∈ map button_of (sorted_convs d) -> btn_command btn ∈ DefaultDict.keys d.
Proof.
  intros H. apply list_elem_of_fmap in H as (item & -> & Hitem).
  rewrite btn_command_button_of. unfold DefaultDict.keys.
  apply list_elem_of_fmap. exists item. split; [done|].
  unfold sorted_convs in Hitem. by rewrite sorted_perm in Hitem.
Qed.

(** The buttons made from a store stand for its conversations. *)
Lemma button_ok_fresh (d : DefaultDict.t) :
  NoDup (DefaultDict.keys d) ->
  Forall (button_ok d) (map button_of (sorted_convs d)).
Proof.
  intros Hnd. apply Forall_forall. intros btn Hbtn.
  apply list_elem_of_fmap in Hbtn as ([[ip1 ip2] c] & -> & Hitem). simpl.
  unfold sorted_convs in Hitem. rewrite sorted_perm in Hitem.
  split; [done|]. exists c. split; [|done].
  by apply dd_lookup_of_elem.
Qed.

(** A button stays right when a packet is recorded. *)
Lemma button_ok_record_packet k p (d : DefaultDict.t) btn :
  button_ok d btn -> button_ok (record_packet k p d) btn.
Proof.
  intros [Hip (c & Hc & Hle)]. split; [done|].
  destruct (decide (k = btn_command btn)) as [->|Hne].
  - rewrite lookup_record_packet_eq. eexists. split; [done|]. simpl.
    unfold DefaultDict.getitem. rewrite Hc. simpl. lia.
  - rewrite lookup_record_packet_ne by done. eauto.
Qed.

Lemma button_ok_key (d : DefaultDict.t) btn :
  button_ok d btn -> btn_command btn ∈ DefaultDict.keys d.
Proof. intros [_ (c & Hc & _)]. apply dd_lookup_is_Some_keys. eauto. Qed.

(** ** Re-display of stored packets *)

Lemma rows_for_no n items l : Forall (fun r => row_no r = n) (rows_for n items l).
Proof.
  revert items. induction l as [|p l IH]; intros items; simpl; [constructor|].
  destruct (ip_layer p); [|constructor].
  destruct (float_time p); constructor; [done | apply IH].
Qed.

Lemma displayed_row_shows n items p ip :
  ip_layer p = Some ip -> row_shows (displayed_row n items p ip) p.
Proof. intros H. exists ip. by repeat split. Qed.

Lemma shown_prefix_all l :
  Forall (fun p => float_time p = true) l ->
  Forall (fun p => is_Some (ip_layer p)) l -> shown_prefix l = l.
Proof.
  intros Hf Hip. induction l as [|p l IH]; simpl; [done|].
  apply Forall_cons in Hf as [Hf1 Hf]. apply Forall_cons in Hip as [[ip Hip1] Hip].
  rewrite (has_IP_Some _ _ Hip1), Hf1. simpl. f_equal. by apply IH.
Qed.

Lemma shown_prefix_prefix l : shown_prefix l `prefix_of` l.
Proof.
  induction l as [|p l IH]; simpl; [done|].
  destruct (has_IP p && float_time p); [by apply prefix_cons | apply prefix_nil].
Qed.

Lemma shown_prefix_float l : Forall (fun p => float_time p = true) (shown_prefix l).
Proof.
  induction l as [|p l IH]; simpl; [constructor|].
  destruct (has_IP p) eqn:Hip, (float_time p) eqn:Hf; simpl; by constructor.
Qed.

Lemma rows_for_shows n items l :
  Forall2 row_shows (rows_for n items l) (shown_prefix l).
Proof.
  revert items. induction l as [|p l IH]; intros items; simpl; [constructor|].
  destruct (ip_layer p) as [ip|] eqn:Hip.
  - rewrite (has_IP_Some _ _ Hip). destruct (float_time p); simpl; [|constructor].
    constructor; [by apply displayed_row_shows | apply IH].
  - rewrite (has_IP_None _ Hip). constructor.
Qed.

(** The loop of [select_conversation]: the rows it has added when it
    ends, and whether it ends with an exception. *)
Lemma for_each_add_packet_to_tree (l : list Packet) (self : App) :
  let after :=
    set_packet_tree
      (packet_tree self ++
       rows_for (List.length (packets self)) (List.length (packet_tree self)) l)
      self in
  match for_each add_packet_to_tree l self with
  | Ok self' => self' = after /\ shown_prefix l = l
  | Raise e self' => self' = after /\ shown_prefix l <> l
  end.
Proof.
  revert self. induction l as [|p l IH]; intros self; simpl.
  - rewrite app_nil_r. by destruct self.
  - destruct (float_time p) eqn:Hf.
    + destruct (ip_layer p) as [ip|] eqn:Hip.
      * rewrite (add_packet_to_tree_shown _ _ _ Hip Hf). simpl.
        rewrite (has_IP_Some _ _ Hip). simpl.
        specialize (IH (set_packet_tree
                          (packet_tree self ++
                           [displayed_row (List.length (packets self))
                              (List.length (packet_tree self)) p ip]) self)).
        simpl in IH. rewrite length_app, Nat.add_1_r, <-app_assoc in IH.
        simpl in IH.
        destruct (for_each add_packet_to_tree l _) as [s|e s];
          destruct IH as [-> Hl]; (split; [by destruct self | congruence]).
      * rewrite (add_packet_to_tree_no_IP _ _ Hf Hip). simpl.
        rewrite (has_IP_None _ Hip), app_nil_r. simpl.
        split; [by destruct self | done].
    + rewrite (add_packet_to_tree_EDecimal _ _ Hf). simpl.
      rewrite andb_false_r.
      assert (match ip_layer p with
              | Some ip => @nil Row
              | None => []
              end = []) as -> by by destruct (ip_layer p).
      rewrite app_nil_r. split; [by destruct self | done].
Qed.

(** The state [select_conversation] leaves, whether it returns or
    raises. *)
Lemma CallWrapper_select_conversation self conv_key :
  CallWrapper (select_conversation self conv_key) =
  mkApp (packets self)
        (DefaultDict.touch conv_key (conversations self))
        (Some conv_key) (graph self) (is_sniffing self)
        (rows_for (List.length (packets self)) 0
           (Conv.packets (DefaultDict.getitem conv_key (conversations self))))
        (conv_scroll_frame self) (after_callbacks self).
Proof.
  unfold select_conversation. cbv zeta.
  pose proof (for_each_add_packet_to_tree
                (Conv.packets (DefaultDict.getitem conv_key (conversations self)))
                (set_conversations
                   (DefaultDict.touch conv_key (conversations self))
                   (set_packet_tree []
                      (set_selected_conversation (Some conv_key) self)))) as H.
  simpl in H.
  destruct (for_each add_packet_to_tree _ _) as [s|e s]; destruct H as [-> _].
  - apply CallWrapper_then_map.
  - done.
Qed.

(** [select_conversation] returns when the time of every stored packet
    is a float and the two addresses of the key differ, and raises
    otherwise. *)
Lemma select_conversation_Ok self a b self' :
  Forall (fun p => is_Some (ip_layer p))
         (Conv.packets (DefaultDict.getitem (a, b) (conversations self))) ->
  select_conversation self (a, b) = Ok self' <->
  self' = CallWrapper (select_conversation self (a, b))
  /\ Forall (fun p => float_time p = true)
            (Conv.packets (DefaultDict.getitem (a, b) (conversations self)))
  /\ a <> b.
Proof.
  intros Hip. rewrite CallWrapper_select_conversation.
  unfold select_conversation. cbv zeta.
  pose proof (for_each_add_packet_to_tree
                (Conv.packets (DefaultDict.getitem (a, b) (conversations self)))
                (set_conversations
                   (DefaultDict.touch (a, b) (conversations self))
                   (set_packet_tree []
                      (set_selected_conversation (Some (a, b)) self)))) as H.
  simpl in H.
  destruct (for_each add_packet_to_tree _ _) as [s|e s]; destruct H as [-> Hl].
  - simpl. destruct (decide (a = b)) as [->|Hne].
    + rewrite (update_network_map_same _ b) by done. simpl.
      split; [discriminate | by intros (_ & _ & ?)].
    + match goal with |- context [update_network_map ?s] =>
        destruct (update_network_map_distinct s a b eq_refl Hne) as [c ->]
      end.
      simpl. split.
      * intros [= <-]. split; [done|]. split; [|done].
        rewrite <-Hl. apply shown_prefix_float.
      * by intros (-> & _).
  - simpl. split; [discriminate|]. intros (_ & Hf & _).
    destruct Hl. by apply shown_prefix_all.
Qed.

(** ** What holds of the store in every state *)

Lemma store_ok_init : store_ok init.
Proof.
  split; simpl; try done; try (by constructor).
Qed.

(** The invariant reads neither the graph, nor the capture flag, nor
    the pending callbacks. *)
Lemma store_ok_frame_rule self g b q :
  store_ok self ->
  store_ok (mkApp (packets self) (conversations self)
                  (selected_conversation self) g b
                  (packet_tree self) (conv_scroll_frame self) q).
Proof. intros []. by split. Qed.

Lemma Forall_values_record_packet (Q : Conv.t -> Prop) k p (d : DefaultDict.t) :
  Q Conv.fresh ->
  (forall c, Q c -> Q (Conv.append p (Conv.incr_count c))) ->
  Forall (fun item => Q item.2) d ->
  Forall (fun item => Q item.2) (record_packet k p d).
Proof.
  intros Hfresh Hstep Hd. unfold record_packet.
  assert (Forall (fun item => Q item.2) (DefaultDict.touch k d)) as Ht.
  { unfold DefaultDict.touch. destruct (DefaultDict.lookup k d); [done|].
    apply Forall_app. split; [done|]. by repeat constructor. }
  clear Hd. induction Ht as [|[k' v] d' Hv Hd' IH]; simpl; [constructor|].
  destruct (decide (k' = k)); constructor; simpl; auto.
Qed.

Lemma keys_record_packet_mono k k0 p (d : DefaultDict.t) :
  k0 ∈ DefaultDict.keys d -> k0 ∈ DefaultDict.keys (record_packet k p d).
Proof.
  intros H. rewrite keys_record_packet.
  destruct (decide (k ∈ DefaultDict.keys d)); [done|].
  apply elem_of_app. by left.
Qed.

Lemma key_in_record_packet k p (d : DefaultDict.t) :
  k ∈ DefaultDict.keys (record_packet k p d).
Proof.
  rewrite keys_record_packet.
  destruct (decide (k ∈ DefaultDict.keys d)); [done|].
  apply elem_of_app. right. by apply list_elem_of_singleton.
Qed.

Lemma NoDup_keys_record_packet k p (d : DefaultDict.t) :
  NoDup (DefaultDict.keys d) -> NoDup (DefaultDict.keys (record_packet k p d)).
Proof.
  intros Hnd. rewrite keys_record_packet.
  destruct (decide (k ∈ DefaultDict.keys d)) as [|Hnew]; [done|].
  apply NoDup_app. split; [done|]. split; [|apply NoDup_singleton].
  intros k0 Hk Hk'. apply list_elem_of_singleton in Hk' as ->. done.
Qed.

Lemma first_seen_unlogged self k :
  store_ok self -> k ∉ DefaultDict.keys (conversations self) ->
  first_seen k (packets self) = None.
Proof.
  intros Hok Hk. destruct (first_seen k (packets self)) as [n|] eqn:E; [|done].
  apply first_seen_lookup in E as (p & Hp & Hpk).
  apply list_elem_of_lookup_2 in Hp.
  pose proof (ok_log _ Hok) as Hlog. rewrite Forall_forall in Hlog.
  destruct (Hlog p Hp) as (k' & Hk' & Hin). congruence.
Qed.

Lemma numbered_live_snoc n log p :
  numbered_live n (log ++ [p]) =
  numbered_live n log ++
  (if float_time p then [(n + List.length log, p)] else []).
Proof.
  revert n. induction log as [|q log IH]; intros n; simpl.
  - rewrite Nat.add_0_r. by rewrite app_nil_r.
  - rewrite IH, <-app_assoc.
    by replace (S n + List.length log) with (n + S (List.length log)) by lia.
Qed.

Lemma numbered_live_all n log :
  Forall (fun p => float_time p = true) log ->
  numbered_live n log = zip (seq n (List.length log)) log.
Proof.
  intros H. revert n. induction H as [|p log Hp _ IH]; intros n; simpl; [done|].
  by rewrite Hp, IH.
Qed.

(** Whether it returns or raises, [_process_packet] keeps the
    invariant: log and store are changed before anything can raise. *)
Lemma store_ok_processed self packet ip :
  store_ok self -> ip_layer packet = Some ip ->
  store_ok (processed self packet ip).
Proof.
  intros Hok Hip.
  set (k := conversation_key (src ip) (dst ip)).
  assert (packet_key packet = Some k) as Hpk.
  { unfold packet_key. by rewrite Hip. }
  split; rewrite ?processed_packets, ?processed_conversations,
           ?processed_selected; fold k.
  - apply (Forall_values_record_packet
             (fun c => Conv.count c = List.length (Conv.packets c))).
    + done.
    + intros c Hc. simpl. rewrite length_app. simpl. lia.
    + apply (ok_count _ Hok).
  - apply (Forall_values_record_packet
             (fun c => Forall (fun p => is_Some (ip_layer p)) (Conv.packets c))).
    + constructor.
    + intros c Hc. simpl. apply Forall_app. split; [done|].
      repeat constructor. by rewrite Hip.
    + apply (ok_stored _ Hok).
  - apply NoDup_keys_record_packet, (ok_nodup _ Hok).
  - rewrite processed_conv_scroll_frame. fold k.
    destruct (surfaced self k && negb (float_time packet)).
    + eapply Forall_impl; [apply (ok_frame _ Hok)|].
      intros btn. apply button_ok_record_packet.
    + apply button_ok_fresh, NoDup_keys_record_packet, (ok_nodup _ Hok).
  - apply Forall_app. split.
    + eapply Forall_impl; [apply (ok_log _ Hok)|]. simpl.
      intros p (k' & Hk' & Hin). exists k'. split; [done|].
      by apply keys_record_packet_mono.
    + repeat constructor. exists k. split; [done|]. apply key_in_record_packet.
  - rewrite keys_record_packet.
    assert (Forall (fun k0 => is_Some (first_seen k0 (packets self ++ [packet])))
                   (DefaultDict.keys (conversations self))) as Hold.
    { eapply Forall_impl; [apply (ok_seen _ Hok)|]. simpl.
      intros k0 [n Hn]. rewrite first_seen_snoc, Hn. eauto. }
    destruct (decide (k ∈ DefaultDict.keys (conversations self))); [done|].
    apply Forall_app. split; [done|]. repeat constructor.
    rewrite first_seen_snoc. destruct (first_seen k (packets self)); [eauto|].
    rewrite decide_True by done. eauto.
  - intros i j k1 k2 Hij. rewrite keys_record_packet.
    assert (forall i j k1 k2, i < j ->
      DefaultDict.keys (conversations self) !! i = Some k1 ->
      DefaultDict.keys (conversations self) !! j = Some k2 ->
      exists n1 n2, first_seen k1 (packets self ++ [packet]) = Some n1
                    /\ first_seen k2 (packets self ++ [packet]) = Some n2
                    /\ n1 < n2) as Hold.
    { intros i' j' k1' k2' Hij' H1 H2.
      destruct (ok_order _ Hok _ _ _ _ Hij' H1 H2) as (n1 & n2 & E1 & E2 & Hlt).
      exists n1, n2. by rewrite !first_seen_snoc, E1, E2. }
    destruct (decide (k ∈ DefaultDict.keys (conversations self))) as [|Hnew];
      [by apply Hold|].
    intros H1 H2.
    apply lookup_snoc_Some in H2 as [[Hj H2]|[Hj <-]].
    + apply lookup_snoc_Some in H1 as [[Hi H1]|[Hi _]]; [|lia].
      by apply (Hold i j).
    + apply lookup_snoc_Some in H1 as [[Hi H1]|[Hi _]]; [|lia].
      pose proof (ok_seen _ Hok) as Hseen. rewrite Forall_forall in Hseen.
      destruct (Hseen k1 (list_elem_of_lookup_2 _ _ _ H1)) as [n1 Hn1].
      exists n1, (List.length (packets self)).
      rewrite !first_seen_snoc, Hn1, (first_seen_unlogged _ _ Hok Hnew).
      rewrite decide_True by done. repeat split.
      by apply first_seen_lt in Hn1.
  - rewrite processed_packet_tree, length_app. fold k. simpl.
    assert (Forall (fun r => row_no r <= List.length (packets self) + 1)
                   (packet_tree self)) as Hold.
    { eapply Forall_impl; [apply (ok_tree_bound _ Hok)|]. simpl. intros; lia. }
    destruct (surfaced self k && float_time packet); [|done].
    apply Forall_app. split; [done|]. repeat constructor. simpl. lia.
  - intros Hsel. rewrite processed_packet_tree, numbered_live_snoc. fold k.
    unfold surfaced. rewrite bool_decide_eq_true_2 by auto. simpl.
    pose proof (ok_tree_live _ Hok Hsel) as Hlive.
    destruct (float_time packet); [|by rewrite app_nil_r].
    apply Forall2_app; [done|]. repeat constructor.
    by apply displayed_row_shows.
Qed.

Lemma store_ok_dispatch self packet rest :
  store_ok self ->
  store_ok (CallWrapper (_process_packet (set_after_callbacks rest self) packet)).
Proof.
  intros Hok.
  destruct (dispatch_cases self packet rest) as [(ip & Hip & ->)|[_ ->]].
  - apply store_ok_processed; [|done].
    apply (store_ok_frame_rule self (graph self) (is_sniffing self) rest Hok).
  - apply (store_ok_frame_rule self (graph self) (is_sniffing self) rest Hok).
Qed.

(** A click on a button: the key is in the store. *)
Lemma store_ok_select self conv_key :
  store_ok self -> conv_key ∈ DefaultDict.keys (conversations self) ->
  store_ok (CallWrapper (select_conversation self conv_key))
  /\ CallWrapper (select_conversation self conv_key) =
     mkApp (packets self) (conversations self) (Some conv_key)
           (graph self) (is_sniffing self)
           (rows_for (List.length (packets self)) 0
              (Conv.packets (DefaultDict.getitem conv_key (conversations self))))
           (conv_scroll_frame self) (after_callbacks self).
Proof.
  intros Hok Hin. rewrite CallWrapper_select_conversation.
  rewrite dd_touch_present by by apply dd_lookup_is_Some_keys.
  split; [|done]. destruct Hok. split; simpl; try done.
  eapply Forall_impl; [apply rows_for_no|]. simpl. intros r ->. done.
Qed.

Lemma store_ok_cleared self : store_ok (cleared self).
Proof. split; simpl; try done; try (by constructor). Qed.

Lemma store_ok_start_sniffing self : store_ok self -> store_ok (start_sniffing self).
Proof. intros H. exact (store_ok_frame_rule self ∅ true (after_callbacks self) H). Qed.

Lemma store_ok_stop_sniffing self :
  store_ok self -> store_ok (CallWrapper (stop_sniffing self)).
Proof.
  intros H. rewrite CallWrapper_stop_sniffing.
  exact (store_ok_frame_rule self (graph self) false (after_callbacks self) H).
Qed.

Lemma store_ok_packet_callback self packet :
  store_ok self ->
  exists self', packet_callback self packet = Ok self' /\ store_ok self'.
Proof.
  intros Hok.
  destruct (packet_callback_cases self packet) as [(ip & _ & ->)|[_ ->]].
  - eexists. split; [done|]. by apply store_ok_frame_rule.
  - by exists self.
Qed.

Lemma button_lookup_key self i btn :
  store_ok self -> conv_scroll_frame self !! i = Some btn ->
  btn_command btn ∈ DefaultDict.keys (conversations self).
Proof.
  intros Hok Hi. apply button_ok_key.
  pose proof (ok_frame _ Hok) as H. rewrite Forall_forall in H.
  apply H. by eapply list_elem_of_lookup_2.
Qed.

(** ** Every interleaving *)

Lemma store_ok_step self self' : store_ok self -> step self self' -> store_ok self'.
Proof.
  intros Hok Hstep.
  destruct Hstep as [self packet self' H|self packet rest Hq|self|self|self
                    |self i btn Hi].
  - destruct (store_ok_packet_callback self packet Hok) as (self1 & E & Hok1).
    rewrite H in E. by injection E as <-.
  - by apply store_ok_dispatch.
  - by apply store_ok_start_sniffing.
  - by apply store_ok_stop_sniffing.
  - rewrite CallWrapper_clear_data. apply store_ok_cleared.
  - apply store_ok_select; [done|]. by eapply button_lookup_key.
Qed.

(** The store invariant holds however the handlers interleave. *)
Lemma store_ok_always self : rtc step init self -> store_ok self.
Proof.
  revert self. apply rtc_ind_r.
  - apply store_ok_init.
  - intros s1 s2 _ Hstep Hok. by apply (store_ok_step s1).
Qed.

(** What a step does, in closed form. *)
Lemma step_effect self self' : store_ok self -> step self self' -> effect self self'.
Proof.
  intros Hok Hstep.
  destruct Hstep as [self packet self' H|self packet rest Hq|self|self|self
                    |self i btn Hi].
  - destruct (packet_callback_cases self packet) as [(ip & Hip & E)|[_ E]];
      rewrite E in H; injection H as <-.
    + by apply effect_edge.
    + destruct self as [pk cv sel g b tr fr q].
      apply (effect_other (mkApp pk cv sel g b tr fr q) g b q). by left.
  - destruct (dispatch_cases self packet rest) as [(ip & Hip & ->)|[_ ->]].
    + by apply effect_record.
    + apply (effect_other self (graph self) (is_sniffing self) rest). by left.
  - apply (effect_other self ∅ true (after_callbacks self)). by right.
  - rewrite CallWrapper_stop_sniffing.
    apply (effect_other self (graph self) false (after_callbacks self)). by left.
  - rewrite CallWrapper_clear_data. apply effect_clear.
  - pose proof (button_lookup_key _ _ _ Hok Hi) as Hin.
    destruct (store_ok_select self (btn_command btn) Hok Hin) as [_ ->].
    by apply effect_select.
Qed.

Lemma effect_invariant (P : App -> Prop) :
  P init ->
  (forall self self', store_ok self -> P self -> effect self self' -> P self') ->
  forall self, rtc step init self -> P self.
Proof.
  intros Hinit Hstep. apply rtc_ind_r; [done|].
  intros s1 s2 Hrtc Hs HP.
  apply (Hstep s1); [by apply store_ok_always | done |].
  apply step_effect; [by apply store_ok_always | done].
Qed.

(** ** Operations are sequences of events *)

Lemma run_callbacks_steps n self : rtc step self (run_callbacks n self).
Proof.
  revert self. induction n as [|n IH]; intros self; simpl; [done|].
  destruct (after_callbacks self) as [|packet rest] eqn:Hq; [done|].
  eapply rtc_l; [by apply (step_dispatch self packet rest) | apply IH].
Qed.

Lemma for_each_packet_callback pkts self :
  for_each packet_callback pkts self =
  Ok (set_after_callbacks (after_callbacks self ++ List.filter has_IP pkts)
        (set_graph (edges_of pkts (graph self)) self)).
Proof.
  revert self. induction pkts as [|p pkts IH]; intros self; simpl.
  - rewrite app_nil_r. by destruct self.
  - destruct (packet_callback_cases self p) as [(ip & Hip & ->)|[Hip ->]]; simpl.
    + rewrite IH. simpl. unfold edges_of at 2. simpl.
      rewrite Hip, (has_IP_Some _ _ Hip). fold (edges_of pkts).
      by rewrite <-app_assoc.
    + rewrite IH. unfold edges_of at 2. simpl.
      by rewrite Hip, (has_IP_None _ Hip).
Qed.

Lemma for_each_packet_callback_steps pkts self self' :
  for_each packet_callback pkts self = Ok self' -> rtc step self self'.
Proof.
  revert self. induction pkts as [|p pkts IH]; intros self; simpl.
  - by intros [= <-].
  - intros H. apply bind_Ok in H as (self1 & H1 & H).
    eapply rtc_l; [by eapply step_packet | by apply IH].
Qed.

(** The state [upload_pcap] leaves. *)
Lemma upload_pcap_eq self choice :
  upload_pcap self choice =
  Ok match choice with
     | Cancelled => self
     | Unreadable => cleared self
     | Capture records =>
         set_after_callbacks
           (after_callbacks self ++ List.filter has_IP (Scapy.rdpcap records))
           (set_graph (edges_of (Scapy.rdpcap records) ∅) (cleared self))
     end.
Proof.
  destruct choice as [| |records]; simpl; [done| |].
  - by rewrite clear_data_eq.
  - rewrite clear_data_eq. simpl. rewrite for_each_packet_callback. simpl.
    match goal with
    | |- context [update_network_map ?s] =>
        destruct (update_network_map_unselected s) as [d ->]; [done|]
    end.
    done.
Qed.

Lemma upload_pcap_steps self choice :
  rtc step self (CallWrapper (upload_pcap self choice)).
Proof.
  destruct choice as [| |records].
  - done.
  - rewrite upload_pcap_eq. simpl. rewrite <-CallWrapper_clear_data.
    apply rtc_once. apply (step_clear self).
  - rewrite upload_pcap_eq. simpl.
    eapply rtc_l; [apply (step_clear self)|]. rewrite CallWrapper_clear_data.
    apply (for_each_packet_callback_steps (Scapy.rdpcap records)).
    by rewrite for_each_packet_callback.
Qed.

(** No operation raises. *)
Lemma do_op_total self op : exists self', do_op self op = Ok self'.
Proof.
  destruct op as [packet| | | |i|choice]; simpl; eauto.
  - destruct (packet_callback_cases self (Scapy.sniffed packet))
      as [(ip & _ & ->)|[_ ->]]; simpl; eauto.
  - destruct (conv_scroll_frame self !! i); eauto.
Qed.

Lemma do_op_steps self op self' : do_op self op = Ok self' -> rtc step self self'.
Proof.
  destruct op as [packet| | | |i|choice]; simpl.
  - intros H. apply bind_Ok in H as (self1 & H1 & [= <-]).
    eapply rtc_l; [by eapply step_packet | apply run_callbacks_steps].
  - intros [= <-]. apply rtc_once, step_start.
  - intros [= <-]. apply rtc_once, step_stop.
  - intros [= <-]. apply rtc_once, step_clear.
  - destruct (conv_scroll_frame self !! i) as [btn|] eqn:Hi; intros [= <-]; [|done].
    by eapply rtc_once, step_click.
  - intros [= <-]. etrans; [apply upload_pcap_steps | apply run_callbacks_steps].
Qed.

Lemma run_steps ops self self' : run ops self = Ok self' -> rtc step self self'.
Proof.
  revert self. unfold run.
  induction ops as [|op ops IH]; intros s; cbn [for_each].
  - by intros [= <-].
  - intros H. apply bind_Ok in H as (s1 & H1 & H).
    etrans; [by eapply do_op_steps | by apply IH].
Qed.

Lemma reachable_steps self : reachable self -> rtc step init self.
Proof. intros [ops H]. by apply (run_steps ops). Qed.

Lemma run_total ops self : exists self', run ops self = Ok self'.
Proof.
  revert self. unfold run. induction ops as [|op ops IH]; intros self.
  - by exists self.
  - cbn [for_each]. destruct (do_op_total self op) as [self1 ->]. simpl.
    apply IH.
Qed.

(** ** The main loop *)

Lemma CallWrapper_process_after_callbacks self packet :
  after_callbacks (CallWrapper (_process_packet self packet)) =
  after_callbacks self.
Proof.
  destruct (ip_layer packet) as [ip|] eqn:Hip.
  - by rewrite (CallWrapper_process_IP _ _ _ Hip), processed_after_callbacks.
  - by rewrite (_process_packet_no_IP _ _ Hip).
Qed.

(** The main loop runs every pending callback and leaves none. *)
Lemma run_callbacks_drains n self :
  List.length (after_callbacks self) <= n ->
  after_callbacks (run_callbacks n self) = [].
Proof.
  revert self. induction n as [|n IH]; intros self Hn; simpl.
  - apply nil_length_inv. lia.
  - destruct (after_callbacks self) as [|packet rest] eqn:Hq; [done|].
    apply IH. rewrite CallWrapper_process_after_callbacks. simpl in *. lia.
Qed.

Lemma mainloop_idle_drains self : after_callbacks (mainloop_idle self) = [].
Proof. by apply run_callbacks_drains. Qed.

Lemma run_callbacks_preserves (P : App -> Prop) :
  (forall self packet rest,
     P self -> after_callbacks self = packet :: rest ->
     P (CallWrapper (_process_packet (set_after_callbacks rest self) packet))) ->
  forall n self, P self -> P (run_callbacks n self).
Proof.
  intros Hstep n. induction n as [|n IH]; intros self HP; simpl; [done|].
  destruct (after_callbacks self) as [|packet rest] eqn:Hq; [done|].
  apply IH. by apply Hstep.
Qed.

(** One pending packet whose time is a float: it is processed without
    an exception and the panel is made anew. *)
Lemma mainloop_idle_one_float self packet ip :
  after_callbacks self = [packet] ->
  ip_layer packet = Some ip -> float_time packet = true ->
  mainloop_idle self = processed (set_after_callbacks [] self) packet ip.
Proof.
  intros Hq Hip Hf. unfold mainloop_idle. rewrite Hq. simpl. rewrite Hq.
  by rewrite (CallWrapper_process_IP _ _ _ Hip).
Qed.

(** Pending packets from a capture file, with nothing selected: every
    one is recorded, and none gets a row or renews the panel. *)
Lemma run_callbacks_from_file n self :
  selected_conversation self = None ->
  Forall (fun p => float_time p = false) (after_callbacks self) ->
  selected_conversation (run_callbacks n self) = None
  /\ packet_tree (run_callbacks n self) = packet_tree self
  /\ conv_scroll_frame (run_callbacks n self) = conv_scroll_frame self.
Proof.
  revert self. induction n as [|n IH]; intros self Hsel Hq; simpl; [done|].
  destruct (after_callbacks self) as [|packet rest] eqn:Hqe; [done|].
  apply Forall_cons in Hq as [Hf Hq].
  destruct (dispatch_cases self packet rest) as [(ip & Hip & ->)|[_ ->]].
  - assert (surfaced (set_after_callbacks rest self)
              (conversation_key (src ip) (dst ip)) = true) as Hs.
    { unfold surfaced. apply bool_decide_eq_true. by left. }
    rewrite (processed_not_shown _ _ _ Hs Hf).
    destruct (IH (recorded (set_after_callbacks rest self) packet ip))
      as (H1 & H2 & H3); [done|done|].
    by rewrite H1, H2, H3.
  - destruct (IH (set_after_callbacks rest self)) as (H1 & H2 & H3);
      [done|done|].
    by rewrite H1, H2, H3.
Qed.

Lemma Forall_float_time_rdpcap records :
  Forall (fun p => float_time p = false)
         (List.filter has_IP (Scapy.rdpcap records)).
Proof.
  induction records as [|p records IH]; simpl; [constructor|].
  destruct (has_IP (Scapy.read p)); [by constructor | done].
Qed.

(** ** Idle states *)

Lemma idle_ok_init : idle_ok init.
Proof. split; [apply store_ok_init|]. split; [done | by left]. Qed.

Lemma store_ok_steps self self' :
  store_ok self -> rtc step self self' -> store_ok self'.
Proof.
  intros Hok Hsteps. induction Hsteps as [|s1 s2 s3 Hstep _ IH]; [done|].
  apply IH. by apply (store_ok_step s1).
Qed.

Lemma panel_fresh_cleared self : panel_fresh (cleared self).
Proof. by left. Qed.

(** Every operation leaves the main loop idle, and the panel up to
    date or, after a capture file, empty. *)
Lemma do_op_idle_ok self op :
  idle_ok self -> exists self', do_op self op = Ok self' /\ idle_ok self'.
Proof.
  intros (Hok & Hq & Hfresh).
  destruct (do_op_total self op) as [self' Hop]. exists self'. split; [done|].
  split; [by apply (store_ok_steps self), (do_op_steps self op)|].
  destruct op as [packet| | | |i|choice]; simpl in Hop.
  - destruct (packet_callback_cases self (Scapy.sniffed packet))
      as [(ip & Hip & E)|[_ E]]; rewrite E in Hop; simpl in Hop;
      injection Hop as <-.
    + rewrite (mainloop_idle_one_float _ (Scapy.sniffed packet) ip);
        [|by simpl; rewrite Hq|done|done].
      split; [by rewrite processed_after_callbacks|].
      left. rewrite processed_conv_scroll_frame, processed_conversations.
      change (float_time (Scapy.sniffed packet)) with true.
      by rewrite andb_false_r.
    + by rewrite (mainloop_idle_nothing_pending _ Hq).
  - injection Hop as <-. by split.
  - injection Hop as <-. rewrite CallWrapper_stop_sniffing. by split.
  - injection Hop as <-. rewrite CallWrapper_clear_data.
    split; [done | apply panel_fresh_cleared].
  - destruct (conv_scroll_frame self !! i) as [btn|] eqn:Hi;
      injection Hop as <-; [|by split].
    destruct (store_ok_select self (btn_command btn) Hok) as [_ ->];
      [by eapply button_lookup_key|].
    by split.
  - injection Hop as <-. split; [apply mainloop_idle_drains|].
    rewrite upload_pcap_eq. simpl. destruct choice as [| |records].
    + by rewrite (mainloop_idle_nothing_pending _ Hq).
    + rewrite mainloop_idle_nothing_pending by done. apply panel_fresh_cleared.
    + right. unfold mainloop_idle.
      match goal with
      | |- conv_scroll_frame (run_callbacks ?n ?s) = _ =>
          destruct (run_callbacks_from_file n s) as (_ & _ & ->)
      end; [done| |done].
      simpl. rewrite Hq. apply Forall_float_time_rdpcap.
Qed.

Lemma run_idle_ok ops self :
  idle_ok self -> exists self', run ops self = Ok self' /\ idle_ok self'.
Proof.
  revert self. induction ops as [|op ops IH]; intros self Hok.
  - by exists self.
  - destruct (do_op_idle_ok self op Hok) as (self1 & Hop & Hok1).
    destruct (IH self1 Hok1) as (self' & Hrun & Hok').
    exists self'. split; [|done].
    unfold run in *. cbn [for_each]. by rewrite Hop.
Qed.

Lemma reachable_idle_ok self : reachable self -> idle_ok self.
Proof.
  intros [ops Hrun].
  destruct (run_idle_ok ops init idle_ok_init) as (self' & Hrun' & Hok).
  unfold run in *. congruence.
Qed.

Lemma run_reaches ops :
  exists self, run ops init = Ok self /\ reachable self /\ idle_ok self.
Proof.
  destruct (run_idle_ok ops init idle_ok_init) as (self & Hrun & Hidle).
  exists self. split; [done|]. split; [by exists ops | done].
Qed.

(** ** Count and list length *)

(** C4.  Whatever operations are performed, they end in a state in
    which every conversation's count is the length of its packet
    list. *)
Theorem count_is_length_of_packets (ops : list Op) :
  exists self, run ops init = Ok self
    /\ Forall (fun item => Conv.count item.2 = List.length (Conv.packets item.2))
              (conversations self).
Proof.
  destruct (run_idle_ok ops init idle_ok_init) as (self & Hrun & Hok & _).
  exists self. split; [done | apply (ok_count _ Hok)].
Qed.

(** ** The order of the conversation list *)

Lemma filter_sublist_mono {A} (P : A -> Prop) `{!forall x, Decision (P x)}
    (l1 l2 : list A) :
  l1 `sublist_of` l2 -> filter P l1 `sublist_of` filter P l2.
Proof.
  induction 1 as [|x l1 l2 Hs IH|x l1 l2 Hs IH]; [constructor| |].
  - rewrite !filter_cons. destruct (decide (P x)); [by constructor | done].
  - rewrite filter_cons. destruct (decide (P x)); [by constructor | done].
Qed.

Lemma StronglySorted_lookup {A} (R : relation A) (l : list A) i j x y :
  StronglySorted R l -> i < j -> l !! i = Some x -> l !! j = Some y -> R x y.
Proof.
  intros Hs Hij Hi Hj.
  rewrite <-(take_drop_middle l i x Hi) in Hs.
  apply StronglySorted_app_1_r, StronglySorted_inv in Hs as [_ Hx].
  rewrite Forall_forall in Hx. apply Hx.
  apply (list_elem_of_lookup_2 _ (j - S i)).
  rewrite lookup_drop. by replace (S i + (j - S i)) with j by lia.
Qed.

(** Two entries that the sorted list shows one after the other, with
    the same count, are in that order in the dictionary. *)
Lemma sorted_convs_ties (d : DefaultDict.t) i j item1 item2 :
  i < j ->
  sorted_convs d !! i = Some item1 -> sorted_convs d !! j = Some item2 ->
  Conv.count item1.2 = Conv.count item2.2 ->
  exists a b, a < b /\ d !! a = Some item1 /\ d !! b = Some item2.
Proof.
  intros Hij Hi Hj Hc.
  apply sublist_pair_lookup.
  pose proof (lookup_lt_sublist _ _ _ _ _ Hij Hi Hj) as Hsub.
  apply (filter_sublist_mono
           (fun item => Conv.count item.2 = Conv.count item1.2)) in Hsub.
  unfold sorted_convs in Hsub.
  rewrite (sorted_reverse_filter (fun item => Conv.count item.2)) in Hsub.
  rewrite !filter_cons, filter_nil in Hsub.
  rewrite decide_True in Hsub by done. rewrite decide_True in Hsub by done.
  etrans; [exact Hsub | apply sublist_filter].
Qed.


(** ** Graph and store *)

Lemma edges_accounted_idle self :
  edges_accounted self -> after_callbacks self = [] -> edges_are_flows self.
Proof.
  intros H Hq a b Hab. destruct (H a b Hab) as [|(p & Hp & _)]; [done|].
  rewrite Hq in Hp. by apply elem_of_nil in Hp.
Qed.

Lemma edges_accounted_callback self packet self' :
  edges_accounted self -> packet_callback self packet = Ok self' ->
  edges_accounted self'.
Proof.
  intros H Hcb.
  destruct (packet_callback_cases self packet) as [(ip & Hip & E)|[_ E]];
    rewrite E in Hcb; injection Hcb as <-; [|done].
  intros a b. simpl. rewrite nx_has_edge_add_edge.
  assert (packet_key packet = Some (conversation_key (src ip) (dst ip))) as Hpk.
  { unfold packet_key. by rewrite Hip. }
  intros [Hab|[[-> ->]|[-> ->]]].
  - destruct (H a b Hab) as [|(p & Hp & Hk)]; [by left|].
    right. exists p. split; [|done]. apply elem_of_app. by left.
  - right. exists packet. split; [|done].
    apply elem_of_app. right. by apply list_elem_of_singleton.
  - right. exists packet. split; [|by rewrite (conversation_key_sym (dst ip))].
    apply elem_of_app. right. by apply list_elem_of_singleton.
Qed.

Lemma edges_accounted_dispatch self packet rest :
  edges_accounted self -> after_callbacks self = packet :: rest ->
  edges_accounted
    (CallWrapper (_process_packet (set_after_callbacks rest self) packet)).
Proof.
  intros H Hq.
  destruct (dispatch_cases self packet rest) as [(ip & Hip & ->)|[Hip ->]].
  - intros a b.
    rewrite processed_graph, processed_conversations, processed_after_callbacks.
    simpl. intros Hab. destruct (H a b Hab) as [Hk|(p & Hp & Hk)].
    + left. by apply keys_record_packet_mono.
    + rewrite Hq in Hp. apply elem_of_cons in Hp as [->|Hp].
      * left. unfold packet_key in Hk. rewrite Hip in Hk.
        injection Hk as <-. apply key_in_record_packet.
      * right. by exists p.
  - intros a b Hab. simpl in *.
    destruct (H a b Hab) as [Hk|(p & Hp & Hk)]; [by left|].
    rewrite Hq in Hp. apply elem_of_cons in Hp as [->|Hp].
    + unfold packet_key in Hk. by rewrite Hip in Hk.
    + right. by exists p.
Qed.

Lemma flows_joined_callback self packet self' :
  flows_joined self -> packet_callback self packet = Ok self' ->
  flows_joined self'.
Proof.
  intros [Hf Hq] Hcb.
  destruct (packet_callback_cases self packet) as [(ip & Hip & E)|[_ E]];
    rewrite E in Hcb; injection Hcb as <-; [|done].
  split.
  - intros k Hk. simpl in *. apply nx_has_edge_add_edge. left. by apply Hf.
  - intros p ip' Hp Hip'. simpl in *. rewrite !nx_has_edge_add_edge.
    apply elem_of_app in Hp as [Hp|Hp].
    + destruct (Hq p ip' Hp Hip'). auto.
    + apply list_elem_of_singleton in Hp as ->.
      rewrite Hip in Hip'. injection Hip' as <-. auto.
Qed.

Lemma flows_joined_dispatch self packet rest :
  flows_joined self -> after_callbacks self = packet :: rest ->
  flows_joined
    (CallWrapper (_process_packet (set_after_callbacks rest self) packet)).
Proof.
  intros [Hf Hq] Hqueue.
  destruct (dispatch_cases self packet rest) as [(ip & Hip & ->)|[Hip ->]].
  - destruct (Hq packet ip) as [H1 H2]; [rewrite Hqueue; left | done |].
    split.
    + intros k. rewrite processed_graph, processed_conversations. simpl.
      rewrite keys_record_packet.
      destruct (decide (conversation_key (src ip) (dst ip)
                        ∈ DefaultDict.keys (conversations self))); [apply Hf|].
      rewrite elem_of_app, list_elem_of_singleton. intros [Hk| ->]; [by apply Hf|].
      rewrite conversation_key_unfold. by destruct (String.ltb (dst ip) (src ip)).
    + intros p ip'. rewrite processed_graph, processed_after_callbacks. simpl.
      intros Hp Hip'. apply (Hq p ip'); [|done].
      rewrite Hqueue. by right.
  - split; [done|]. intros p ip' Hp Hip'. simpl in *. apply (Hq p ip'); [|done].
    rewrite Hqueue. by right.
Qed.

Lemma for_each_packet_callback_preserves (P : App -> Prop) :
  (forall self packet self',
     P self -> packet_callback self packet = Ok self' -> P self') ->
  forall pkts self self',
    P self -> for_each packet_callback pkts self = Ok self' -> P self'.
Proof.
  intros Hstep pkts. induction pkts as [|packet rest IH]; intros self self' HP;
    simpl.
  - by intros [= <-].
  - intros H. apply bind_Ok in H as (self1 & H1 & H).
    apply (IH self1); [|done]. by apply (Hstep self packet).
Qed.

Lemma edges_accounted_no_edges self :
  (forall a b, Nx.has_edge (graph self) a b = false) -> edges_accounted self.
Proof. intros H a b Hab. rewrite H in Hab. discriminate. Qed.

Lemma edges_accounted_cleared self : edges_accounted (cleared self).
Proof. apply edges_accounted_no_edges. intros. apply nx_has_edge_empty. Qed.

Lemma edges_accounted_upload_pcap self choice :
  edges_accounted self -> edges_accounted (CallWrapper (upload_pcap self choice)).
Proof.
  intros H. rewrite upload_pcap_eq. destruct choice as [| |records]; simpl;
    [done | apply edges_accounted_cleared |].
  apply (for_each_packet_callback_preserves _ edges_accounted_callback
           (Scapy.rdpcap records) (cleared self));
    [apply edges_accounted_cleared|].
  by rewrite for_each_packet_callback.
Qed.

Lemma edges_accounted_do_op self op self' :
  store_ok self -> edges_accounted self -> do_op self op = Ok self' ->
  edges_accounted self'.
Proof.
  intros Hok H. destruct op as [packet| | | |i|choice]; simpl.
  - intros Hrun. apply bind_Ok in Hrun as (self1 & Hcb & [= <-]).
    apply (run_callbacks_preserves _ edges_accounted_dispatch).
    by apply (edges_accounted_callback self (Scapy.sniffed packet)).
  - intros [= <-]. apply edges_accounted_no_edges. intros.
    apply nx_has_edge_empty.
  - intros [= <-]. by rewrite CallWrapper_stop_sniffing.
  - intros [= <-]. rewrite CallWrapper_clear_data. apply edges_accounted_cleared.
  - destruct (conv_scroll_frame self !! i) as [btn|] eqn:Hi; intros [= <-];
      [|done].
    destruct (store_ok_select self (btn_command btn) Hok) as [_ ->];
      [by eapply button_lookup_key|].
    done.
  - intros [= <-].
    apply (run_callbacks_preserves _ edges_accounted_dispatch).
    by apply edges_accounted_upload_pcap.
Qed.

Lemma flows_joined_cleared self :
  after_callbacks self = [] -> flows_joined (cleared self).
Proof.
  intros Hq. split.
  - intros k Hk. simpl in Hk. by apply elem_of_nil in Hk.
  - intros p ip Hp. simpl in Hp. rewrite Hq in Hp. by apply elem_of_nil in Hp.
Qed.

Lemma flows_joined_do_op self op self' b :
  store_ok self -> after_callbacks self = [] ->
  (b = true -> flows_joined self) ->
  do_op self op = Ok self' ->
  keeps_step op self b = true -> flows_joined self'.
Proof.
  intros Hok Hq H. destruct op as [packet| | | |i|choice]; simpl.
  - intros Hrun Hb. apply bind_Ok in Hrun as (self1 & Hcb & [= <-]).
    apply (run_callbacks_preserves _ flows_joined_dispatch).
    by apply (flows_joined_callback self (Scapy.sniffed packet)); [apply H|].
  - intros [= <-] Hempty. apply bool_decide_eq_true in Hempty. split.
    + intros k Hk. simpl in Hk. rewrite Hempty in Hk. by apply elem_of_nil in Hk.
    + intros p ip Hp. simpl in Hp. rewrite Hq in Hp. by apply elem_of_nil in Hp.
  - intros [= <-] Hb. rewrite CallWrapper_stop_sniffing. by apply H.
  - intros [= <-] _. rewrite CallWrapper_clear_data. by apply flows_joined_cleared.
  - intros Hrun Hb.
    destruct (conv_scroll_frame self !! i) as [btn|] eqn:Hi;
      injection Hrun as <-; [|by apply H].
    destruct (store_ok_select self (btn_command btn) Hok) as [_ ->];
      [by eapply button_lookup_key|].
    by apply H.
  - intros [= <-] Hb.
    apply (run_callbacks_preserves _ flows_joined_dispatch).
    rewrite upload_pcap_eq. destruct choice as [| |records]; simpl in *.
    + by apply H.
    + by apply flows_joined_cleared.
    + apply (for_each_packet_callback_preserves _ flows_joined_callback
               (Scapy.rdpcap records) (cleared self));
        [by apply flows_joined_cleared|].
      by rewrite for_each_packet_callback.
Qed.

Lemma graph_run ops :
  forall self b,
    idle_ok self -> edges_accounted self -> (b = true -> flows_joined self) ->
    exists self', run ops self = Ok self' /\ idle_ok self'
      /\ edges_accounted self'
      /\ (graph_in_step ops self b = true -> flows_joined self').
Proof.
  induction ops as [|op ops IH]; intros self b Hidle He Hf.
  - exists self. split; [done|]. split; [done|]. by split.
  - destruct (do_op_idle_ok self op Hidle) as (self1 & Hop & Hidle1).
    destruct Hidle as (Hok & Hq & _).
    destruct (IH self1 (keeps_step op self b) Hidle1
                (edges_accounted_do_op _ _ _ Hok He Hop)
                (flows_joined_do_op _ _ _ _ Hok Hq Hf Hop))
      as (self' & Hrun & Hidle' & He' & Hf').
    exists self'. split.
    { unfold run in *. cbn [for_each]. by rewrite Hop. }
    split; [done|]. split; [done|].
    cbn [graph_in_step]. by rewrite Hop.
Qed.

(** C1 (as the program has it).  After any operations every edge of
    the graph joins the addresses of a stored flow; and every stored
    flow has its edge as long as, since the store was last cleared, no
    capture session was started while the store held conversations. *)
Theorem graph_edges_are_stored_flows (ops : list Op) :
  exists self, run ops init = Ok self
    /\ edges_are_flows self
    /\ (graph_in_step ops init true = true -> flows_are_edges self).
Proof.
  destruct (graph_run ops init true idle_ok_init)
    as (self & Hrun & (_ & Hq & _) & He & Hf).
  - apply edges_accounted_no_edges. intros. apply nx_has_edge_empty.
  - intros _. split; [intros k H | intros p ip H]; by apply elem_of_nil in H.
  - exists self. split; [done|]. split.
    + by apply edges_accounted_idle.
    + intros Hb. by apply Hf.
Qed.

Lemma edges_accounted_step self self' :
  store_ok self -> edges_accounted self -> step self self' -> edges_accounted self'.
Proof.
  intros Hok He Hstep.
  destruct Hstep as [self packet self' H|self packet rest Hq|self|self|self
                    |self i btn Hi].
  - by apply (edges_accounted_callback self packet).
  - by apply edges_accounted_dispatch.
  - apply edges_accounted_no_edges. intros. apply nx_has_edge_empty.
  - by rewrite CallWrapper_stop_sniffing.
  - rewrite CallWrapper_clear_data. apply edges_accounted_cleared.
  - destruct (store_ok_select self (btn_command btn) Hok) as [_ ->];
      [by eapply button_lookup_key|].
    done.
Qed.

(** However the handlers interleave, an edge of the graph joins the
    addresses of a stored flow or of a packet that waits to be
    processed. *)
Lemma edges_accounted_always self : rtc step init self -> edges_accounted self.
Proof.
  revert self. apply rtc_ind_r.
  - apply edges_accounted_no_edges. intros. apply nx_has_edge_empty.
  - intros s1 s2 Hrtc Hstep He.
    apply (edges_accounted_step s1); [by apply store_ok_always|done|done].
Qed.

(** ** Ingestion *)

(** What [sniff] delivers is processed at once when nothing else is
    pending. *)
Lemma do_op_Ingest_IP self packet ip :
  ip_layer packet = Some ip -> after_callbacks self = [] ->
  do_op self (Ingest packet) =
  Ok (processed (set_graph (Nx.add_edge (graph self) (src ip) (dst ip)) self)
                (Scapy.sniffed packet) ip).
Proof.
  intros Hip Hq. simpl.
  rewrite (packet_callback_IP _ (Scapy.sniffed packet) ip) by done. simpl.
  rewrite (mainloop_idle_one_float _ (Scapy.sniffed packet) ip);
    [|by simpl; rewrite Hq|done|done].
  do 2 f_equal. destruct self. simpl in *. by subst.
Qed.

Lemma do_op_Ingest_no_IP self packet :
  ip_layer packet = None -> after_callbacks self = [] ->
  do_op self (Ingest packet) = Ok self.
Proof.
  intros Hip Hq. simpl.
  rewrite (packet_callback_no_IP _ (Scapy.sniffed packet)) by done. simpl.
  by rewrite mainloop_idle_nothing_pending.
Qed.

(** ** Storing does not depend on the selection *)

(** C2 (where the program departs from it).  A packet with an IP layer
    that is processed is appended to the packet log and to the packet
    list of its conversation, whose count goes up by one, whatever
    conversation is selected and whether or not the processing raises.
    A row is added to the table exactly when no conversation is
    selected or the selected one is the packet's, and the time of the
    packet is a float: for a packet from [sniff] the selection alone
    decides, while a packet from a capture file, whose time is an
    [EDecimal], is never shown ([_process_packet] raises
    [TypeError]), although nothing is selected then. *)
Theorem ingest_stores_whatever_is_selected
    (self : App) (packet : Packet) (ip : IPLayer) :
  ip_layer packet = Some ip ->
  let k := conversation_key (src ip) (dst ip) in
  let conv := DefaultDict.getitem k (conversations self) in
  let self' := CallWrapper (_process_packet self packet) in
  packets self' = packets self ++ [packet]
  /\ DefaultDict.lookup k (conversations self') =
     Some (Conv.mk (Conv.count conv + 1) (Conv.packets conv ++ [packet]))
  /\ (forall k', k <> k' ->
      DefaultDict.lookup k' (conversations self') =
      DefaultDict.lookup k' (conversations self))
  /\ selected_conversation self' = selected_conversation self
  /\ (surfaced self k = true <->
      selected_conversation self = None \/ selected_conversation self = Some k)
  /\ packet_tree self' =
     (if surfaced self k && float_time packet
      then packet_tree self ++
           [displayed_row (S (List.length (packets self)))
                          (List.length (packet_tree self)) packet ip]
      else packet_tree self)
  /\ (surfaced self k = true -> float_time packet = false ->
      _process_packet self packet = Raise TypeError self')
  /\ (after_callbacks self = [] ->
      do_op self (Ingest packet) =
      Ok (CallWrapper
            (_process_packet
               (set_graph (Nx.add_edge (graph self) (src ip) (dst ip)) self)
               (Scapy.sniffed packet)))
      /\ float_time (Scapy.sniffed packet) = true).
Proof.
  intros Hip k conv self'. unfold self'.
  rewrite (CallWrapper_process_IP _ _ _ Hip).
  rewrite processed_packets, processed_conversations, processed_selected,
    processed_packet_tree. fold k.
  split; [done|]. split; [apply lookup_record_packet_eq|].
  split; [intros k' Hne; by apply lookup_record_packet_ne|].
  split; [done|]. split; [unfold surfaced; apply bool_decide_eq_true|].
  split; [done|]. split.
  - intros Hs Hf. rewrite (_process_packet_IP _ _ _ Hip). fold k.
    rewrite Hs, Hf. simpl. by rewrite (processed_not_shown _ _ _ Hs Hf).
  - intros Hq. split; [|done].
    rewrite (do_op_Ingest_IP _ _ _ Hip Hq).
    by rewrite (CallWrapper_process_IP _ (Scapy.sniffed packet) ip).
Qed.

(** ** Packets without an IP layer *)

(** C7.  A packet without an IP layer changes nothing: the capture
    callback returns the state as it was (no edge, nothing scheduled),
    so does the processing step, and neither raises. *)
Theorem non_ip_packet_changes_nothing (self : App) (packet : Packet) :
  ip_layer packet = None ->
  packet_callback self packet = Ok self
  /\ _process_packet self packet = Ok self
  /\ (after_callbacks self = [] -> do_op self (Ingest packet) = Ok self).
Proof.
  intros Hip. split; [by apply packet_callback_no_IP|].
  split; [by apply _process_packet_no_IP|].
  intros Hq. by apply do_op_Ingest_no_IP.
Qed.

(** ** The packet log *)

Lemma run_callbacks_log n self :
  List.length (after_callbacks self) <= n ->
  packets (run_callbacks n self) =
  packets self ++ List.filter has_IP (after_callbacks self).
Proof.
  revert self. induction n as [|n IH]; intros self; simpl.
  - intros Hn. destruct (after_callbacks self); simpl in *; [|lia].
    by rewrite app_nil_r.
  - destruct (after_callbacks self) as [|packet rest] eqn:Hq.
    + intros _. by rewrite app_nil_r.
    + intros Hn. simpl in Hn.
      rewrite IH by (rewrite CallWrapper_process_after_callbacks; simpl; lia).
      rewrite CallWrapper_process_after_callbacks. simpl.
      destruct (dispatch_cases self packet rest) as [(ip & Hip & ->)|[Hip ->]].
      * rewrite processed_packets. simpl.
        by rewrite (has_IP_Some _ _ Hip), <-app_assoc.
      * by rewrite (has_IP_None _ Hip).
Qed.

Lemma mainloop_idle_log self :
  packets (mainloop_idle self) =
  packets self ++ List.filter has_IP (after_callbacks self).
Proof. by apply run_callbacks_log. Qed.

Lemma filter_has_IP_twice pkts :
  List.filter has_IP (List.filter has_IP pkts) = List.filter has_IP pkts.
Proof.
  induction pkts as [|p pkts IH]; simpl; [done|].
  destruct (has_IP p) eqn:E; simpl; [|done]. by rewrite E, IH.
Qed.

Lemma do_op_log self op self' :
  idle_ok self -> do_op self op = Ok self' ->
  packets self' = accept op (packets self).
Proof.
  intros (Hok & Hq & _). destruct op as [packet| | | |i|choice]; simpl.
  - intros Hrun. apply bind_Ok in Hrun as (self1 & Hcb & [= <-]).
    rewrite mainloop_idle_log.
    destruct (packet_callback_cases self (Scapy.sniffed packet))
      as [(ip & Hip & E)|[Hip E]];
      rewrite E in Hcb; injection Hcb as <-; simpl.
    + change (has_IP packet) with (has_IP (Scapy.sniffed packet)).
      rewrite Hq, (has_IP_Some _ _ Hip); simpl.
      by rewrite (has_IP_Some _ _ Hip).
    + change (has_IP packet) with (has_IP (Scapy.sniffed packet)).
      by rewrite Hq, (has_IP_None _ Hip), app_nil_r.
  - by intros [= <-].
  - intros [= <-]. by rewrite CallWrapper_stop_sniffing.
  - intros [= <-]. by rewrite CallWrapper_clear_data.
  - destruct (conv_scroll_frame self !! i) as [btn|] eqn:Hi; intros [= <-];
      [|done].
    by rewrite CallWrapper_select_conversation.
  - intros [= <-]. rewrite mainloop_idle_log, upload_pcap_eq.
    destruct choice as [| |records]; simpl.
    + by rewrite Hq, app_nil_r.
    + by rewrite Hq.
    + rewrite Hq. simpl. apply filter_has_IP_twice.
Qed.

Lemma run_log ops self self' :
  idle_ok self -> run ops self = Ok self' ->
  packets self' = fold_left (fun log op => accept op log) ops (packets self).
Proof.
  revert self. induction ops as [|op ops IH]; intros self Hidle.
  - by intros [= <-].
  - unfold run. cbn [for_each fold_left]. intros Hrun.
    apply bind_Ok in Hrun as (self1 & Hop & Hrun).
    destruct (do_op_idle_ok self op Hidle) as (self1' & Hop' & Hidle1).
    rewrite Hop in Hop'. injection Hop' as <-.
    rewrite <-(do_op_log _ _ _ Hidle Hop). by apply IH.
Qed.

Lemma run_two self op1 op2 self1 self2 :
  do_op self op1 = Ok self1 -> do_op self1 op2 = Ok self2 ->
  run [op1; op2] self = Ok self2.
Proof.
  intros H1 H2. unfold run. cbn [for_each]. rewrite H1.
  unfold mbind, result_bind. by rewrite H2.
Qed.

(** ** Sequence numbers *)

Lemma row_numbered_all n tree log :
  Forall2 row_numbered tree (zip (seq n (List.length log)) log) ->
  map row_no tree = seq n (List.length log) /\ Forall2 row_shows tree log.
Proof.
  revert n tree. induction log as [|p log IH]; intros n tree; simpl.
  - intros H. by apply Forall2_nil_inv_r in H as ->.
  - intros H. apply Forall2_cons_inv_r in H as (r & tree' & [Hno Hsh] & H & ->).
    destruct (IH _ _ H) as [E Hshow]. simpl in *.
    split; [by rewrite Hno, E | by constructor].
Qed.


Lemma reachable_tree_bound self :
  reachable self ->
  Forall (fun r => row_no r < S (List.length (packets self))) (packet_tree self).
Proof.
  intros Hreach. destruct (reachable_idle_ok _ Hreach) as (Hok & _ & _).
  eapply Forall_impl; [apply (ok_tree_bound _ Hok)|]. simpl. intros; lia.
Qed.

(** C6 (as the program has it).  Between two clears the number given
    to a packet from [sniff] that is shown is one more than the number
    of packets logged so far, above every number in the table; a clear
    starts the numbering again, the next packet being number 1. *)
Theorem numbering_restarts_at_clear (self : App) (packet : Packet) (ip : IPLayer) :
  reachable self ->
  ip_layer packet = Some ip ->
  exists self1 self2,
    do_op self (Ingest packet) = Ok self1
    /\ Forall (fun r => row_no r < S (List.length (packets self))) (packet_tree self)
    /\ packet_tree self1 =
       (if surfaced self (conversation_key (src ip) (dst ip))
        then packet_tree self ++
             [displayed_row (S (List.length (packets self)))
                            (List.length (packet_tree self))
                            (Scapy.sniffed packet) ip]
        else packet_tree self)
    /\ run [ClearData; Ingest packet] self = Ok self2
    /\ packets self2 = [Scapy.sniffed packet]
    /\ map row_no (packet_tree self2) = [1].
Proof.
  intros Hreach Hip. destruct (reachable_idle_ok _ Hreach) as (Hok & Hq & _).
  eexists _, _. split; [by apply (do_op_Ingest_IP _ _ ip)|].
  split; [by apply reachable_tree_bound|].
  split.
  { rewrite processed_packet_tree. simpl.
    change (float_time (Scapy.sniffed packet)) with true.
    by rewrite andb_true_r. }
  split.
  { apply (run_two _ _ _ (cleared self)).
    - simpl. by rewrite CallWrapper_clear_data.
    - by apply (do_op_Ingest_IP _ _ ip). }
  rewrite processed_packets, processed_packet_tree. by split.
Qed.

(** ** Re-display of a conversation *)

Lemma download_csv_eq self filepath :
  download_csv self filepath =
  if decide (packet_tree self = [] \/ filepath = "") then None
  else Some (columns, packet_tree self).
Proof.
  unfold download_csv. destruct (packet_tree self) as [|r rows].
  - by rewrite decide_True by auto.
  - destruct (decide (filepath = "")) as [->|Hf].
    + by rewrite decide_True by auto.
    + rewrite decide_False; [done|]. by intros [?|?].
Qed.

Lemma stored_have_IP self conv_key :
  store_ok self ->
  Forall (fun p => is_Some (ip_layer p))
         (Conv.packets (DefaultDict.getitem conv_key (conversations self))).
Proof.
  intros Hok. unfold DefaultDict.getitem.
  destruct (DefaultDict.lookup conv_key (conversations self)) as [c|] eqn:Hc;
    simpl; [|constructor].
  pose proof (ok_stored _ Hok) as H. rewrite Forall_forall in H.
  apply (H (conv_key, c)). by apply dd_lookup_Some_elem.
Qed.

(** C10.  Selecting a conversation empties the table and adds a row
    for each of its stored packets, in order, and every one of these
    rows is numbered with the length of the packet log at that moment,
    not with the number the packet had when it came in; the CSV export
    writes these rows as they are.  The loop ends with [TypeError] at
    the first stored packet whose time is no float (one from a capture
    file); when there is none, all stored packets get their row, and
    the handler returns unless the two addresses of the key are the
    same ([update_network_map] then raises [ValueError]). *)
Theorem redisplayed_rows_numbered_with_log_length (self : App) (conv_key : FlowKey) :
  reachable self ->
  let stored := Conv.packets (DefaultDict.getitem conv_key (conversations self)) in
  let self' := CallWrapper (select_conversation self conv_key) in
  selected_conversation self' = Some conv_key
  /\ packets self' = packets self
  /\ Forall (fun r => row_no r = List.length (packets self)) (packet_tree self')
  /\ Forall2 row_shows (packet_tree self') (shown_prefix stored)
  /\ (Forall (fun p => float_time p = true) stored ->
      Forall2 row_shows (packet_tree self') stored)
  /\ (select_conversation self conv_key = Ok self' <->
      Forall (fun p => float_time p = true) stored /\ conv_key.1 <> conv_key.2)
  /\ forall filepath,
       download_csv self' filepath =
       if decide (packet_tree self' = [] \/ filepath = "") then None
       else Some (columns, packet_tree self').
Proof.
  intros Hreach stored self'.
  destruct (reachable_idle_ok _ Hreach) as (Hok & _ & _).
  pose proof (stored_have_IP self conv_key Hok) as Hip. fold stored in Hip.
  assert (self' =
          mkApp (packets self)
                (DefaultDict.touch conv_key (conversations self))
                (Some conv_key) (graph self) (is_sniffing self)
                (rows_for (List.length (packets self)) 0 stored)
                (conv_scroll_frame self) (after_callbacks self)) as Hself'.
  { unfold self'. apply CallWrapper_select_conversation. }
  split; [by rewrite Hself'|]. split; [by rewrite Hself'|].
  split; [rewrite Hself'; apply rows_for_no|].
  split; [rewrite Hself'; apply rows_for_shows|].
  split.
  { intros Hf. rewrite Hself'. simpl.
    rewrite <-(shown_prefix_all stored Hf Hip) at 2. apply rows_for_shows. }
  split; [|intros filepath; apply download_csv_eq].
  destruct conv_key as [a b]. simpl.
  rewrite (select_conversation_Ok self a b self' Hip). fold stored.
  split; [by intros (_ & ? & ?) | by intros [? ?]].
Qed.

(** * Further properties *)

(** ** Store, log and table *)

Lemma log_of_flow_snoc k log p :
  log_of_flow k (log ++ [p]) =
  log_of_flow k log ++ (if decide (packet_key p = Some k) then [p] else []).
Proof.
  unfold log_of_flow. rewrite filter_app, filter_cons, filter_nil.
  by destruct (decide (packet_key p = Some k)).
Qed.

Lemma total_count_record_packet k p (d : DefaultDict.t) :
  total_count (record_packet k p d) = S (total_count d).
Proof.
  unfold record_packet, total_count, DefaultDict.touch.
  induction d as [|[k0 v] d IH]; simpl.
  - rewrite decide_True by done. simpl. lia.
  - destruct (decide (k0 = k)) as [->|Hne]; simpl.
    + rewrite decide_True by done. simpl. lia.
    + destruct (DefaultDict.lookup k d) eqn:E; simpl in *;
        rewrite decide_False by done; simpl; rewrite IH; lia.
Qed.

Lemma stripe_rows_for n items l i r :
  rows_for n items l !! i = Some r -> row_tag r = stripe (items + i).
Proof.
  revert items i. induction l as [|p l IH]; intros items i; simpl; [done|].
  destruct (ip_layer p) as [ip|]; [|done].
  destruct (float_time p); [|done].
  destruct i as [|i]; simpl.
  - intros [= <-]. by rewrite Nat.add_0_r.
  - intros H. rewrite (IH _ _ H). f_equal. lia.
Qed.

Lemma view_ok_init : view_ok init.
Proof. split; simpl; try done; try (by constructor). Qed.

Lemma view_ok_cleared self : view_ok (cleared self).
Proof. split; simpl; try done; try (by constructor). Qed.

Lemma view_ok_effect self self' :
  store_ok self -> view_ok self -> effect self self' -> view_ok self'.
Proof.
  intros Hok Hv Heff.
  destruct Heff as [packet ip Hip|packet ip rest Hq Hip|g b q Hg| |conv_key Hin].
  - destruct Hv. by split.
  - set (kp := conversation_key (src ip) (dst ip)).
    assert (packet_key packet = Some kp) as Hpk.
    { unfold packet_key. by rewrite Hip. }
    split; rewrite ?processed_packets, ?processed_conversations,
             ?processed_selected; simpl; fold kp.
    + intros k. rewrite log_of_flow_snoc. destruct (decide (kp = k)) as [<-|Hne].
      * rewrite getitem_record_packet_eq. simpl.
        rewrite decide_True by done. by rewrite (view_flows _ Hv).
      * rewrite getitem_record_packet_ne by done.
        rewrite decide_False by congruence.
        by rewrite app_nil_r, (view_flows _ Hv).
    + rewrite total_count_record_packet, length_app, (view_total _ Hv).
      simpl. lia.
    + rewrite keys_record_packet.
      destruct (decide (kp ∈ DefaultDict.keys (conversations self)));
        [apply (view_keys_sorted _ Hv)|].
      apply Forall_app. split; [apply (view_keys_sorted _ Hv)|].
      repeat constructor. apply conversation_key_sorted.
    + intros k Hsel. rewrite processed_packet_tree. simpl. fold kp.
      unfold surfaced. simpl.
      destruct (decide (kp = k)) as [<-|Hne].
      * rewrite bool_decide_eq_true_2 by auto.
        rewrite getitem_record_packet_eq. simpl. intros Hf.
        apply Forall_app in Hf as [Hold Hnew].
        apply Forall_cons in Hnew as [-> _]. simpl.
        apply Forall2_app; [by apply (view_filtered _ Hv)|].
        repeat constructor. by apply displayed_row_shows.
      * rewrite bool_decide_eq_false_2.
        -- rewrite getitem_record_packet_ne by done.
           by apply (view_filtered _ Hv).
        -- rewrite Hsel. intros [?|?]; congruence.
    + intros i r. rewrite processed_packet_tree. simpl.
      match goal with
      | |- context [if ?c then _ else _] => destruct c
      end; [|apply (view_stripes _ Hv)].
      intros H. apply lookup_snoc_Some in H as [[_ H]|[-> <-]].
      * by apply (view_stripes _ Hv).
      * done.
  - destruct Hv. by split.
  - apply view_ok_cleared.
  - destruct Hv as [Hf Ht Hs Hfl Hst]. split; simpl; try done.
    + intros k [= <-] Hfloat.
      rewrite <-(shown_prefix_all _ Hfloat (stored_have_IP self conv_key Hok))
        at 2.
      apply rows_for_shows.
    + intros i r H. by apply stripe_rows_for in H.
Qed.

Lemma view_ok_always self : rtc step init self -> view_ok self.
Proof. apply effect_invariant; [apply view_ok_init | apply view_ok_effect]. Qed.

Lemma view_ok_reachable self : reachable self -> view_ok self.
Proof. intros H. by apply view_ok_always, reachable_steps. Qed.

Lemma view_ok_steps self self' :
  store_ok self -> view_ok self -> rtc step self self' -> view_ok self'.
Proof.
  intros Hok Hv Hsteps. induction Hsteps as [|s1 s2 s3 Hstep _ IH]; [done|].
  apply IH; [by apply (store_ok_step s1)|].
  apply (view_ok_effect s1); [done|done|]. by apply step_effect.
Qed.

(** X1.  The packet log holds the packets with an IP layer that came in
    since the last clear (or since the last capture file was loaded),
    in the order of their arrival. *)
Theorem log_is_accepted_packets (ops : list Op) :
  exists self, run ops init = Ok self /\ packets self = accepted_log ops.
Proof.
  destruct (run_reaches ops) as (self & Hrun & _ & _).
  exists self. split; [done|].
  apply (run_log ops init self idle_ok_init Hrun).
Qed.

Lemma count_of_flow self k :
  store_ok self -> view_ok self ->
  Conv.count (DefaultDict.getitem k (conversations self)) =
  List.length (log_of_flow k (packets self)).
Proof.
  intros Hok Hv. rewrite <-(view_flows _ Hv k). unfold DefaultDict.getitem.
  destruct (DefaultDict.lookup k (conversations self)) as [c|] eqn:Hc; [|done].
  simpl. pose proof (ok_count _ Hok) as H. rewrite Forall_forall in H.
  apply (H (k, c)). by apply dd_lookup_Some_elem.
Qed.

(** X2.  Every conversation holds exactly the packets of the log whose
    addresses are its two addresses, in the order of the log, and its
    count is their number; a pair of addresses without an entry has no
    packet in the log. *)
Theorem conversation_is_its_part_of_log (ops : list Op) :
  exists self, run ops init = Ok self
    /\ forall k,
         Conv.packets (DefaultDict.getitem k (conversations self)) =
           log_of_flow k (packets self)
         /\ Conv.count (DefaultDict.getitem k (conversations self)) =
            List.length (log_of_flow k (packets self)).
Proof.
  destruct (run_reaches ops) as (self & Hrun & Hreach & (Hok & _)).
  exists self. split; [done|]. intros k.
  pose proof (view_ok_reachable _ Hreach) as Hv.
  split; [apply (view_flows _ Hv) | by apply count_of_flow].
Qed.

(** X3.  The counts of all conversations add up to the length of the
    packet log: every logged packet is counted in one conversation. *)
Theorem counts_add_up_to_log_length (ops : list Op) :
  exists self, run ops init = Ok self
    /\ total_count (conversations self) = List.length (packets self).
Proof.
  destruct (run_reaches ops) as (self & Hrun & Hreach & _).
  exists self. split; [done|].
  apply (view_total _ (view_ok_reachable _ Hreach)).
Qed.

Lemma lex_le_antisym a b : lex_le a b -> lex_le b a -> a = b.
Proof.
  intros Hab. induction Hab as [s|c1 c2 s1 s2 Hlt|c s1 s2 Hab IH]; intros Hba.
  - by inversion Hba.
  - inversion Hba; subst; lia.
  - inversion Hba; subst; [lia|]. f_equal. by apply IH.
Qed.

(** X4.  The store has at most one entry for a pair of addresses: no
    key occurs twice, every key has its addresses in lexicographic
    order, and a key and its mirror image are both present only when
    the two addresses are the same. *)
Theorem one_conversation_per_pair (ops : list Op) :
  exists self, run ops init = Ok self
    /\ NoDup (DefaultDict.keys (conversations self))
    /\ Forall (fun k => lex_le k.1 k.2) (DefaultDict.keys (conversations self))
    /\ forall a b,
         (a, b) ∈ DefaultDict.keys (conversations self) ->
         (b, a) ∈ DefaultDict.keys (conversations self) -> a = b.
Proof.
  destruct (run_reaches ops) as (self & Hrun & Hreach & (Hok & _)).
  pose proof (view_ok_reachable _ Hreach) as Hv.
  exists self. split; [done|]. split; [apply (ok_nodup _ Hok)|].
  split; [apply (view_keys_sorted _ Hv)|].
  intros a b Hab Hba. pose proof (view_keys_sorted _ Hv) as Hs.
  rewrite Forall_forall in Hs.
  apply lex_le_antisym; [apply (Hs _ Hab) | apply (Hs _ Hba)].
Qed.

(** X8.  While a conversation is selected and the times of its packets
    are floats (none of them was read from a capture file), the table
    shows the packets of the log that belong to it, one row each, in
    the order of the log, and nothing else. *)
Theorem filtered_table_is_selected_conversation
    (ops : list Op) (self : App) (k : FlowKey) :
  run ops init = Ok self ->
  selected_conversation self = Some k ->
  Forall (fun p => float_time p = true) (log_of_flow k (packets self)) ->
  Forall2 row_shows (packet_tree self) (log_of_flow k (packets self)).
Proof.
  intros Hrun Hsel.
  pose proof (view_ok_reachable self (ex_intro _ ops Hrun)) as Hv.
  rewrite <-(view_flows _ Hv). by apply (view_filtered _ Hv).
Qed.

(** X9.  The rows of the table are tagged by position, evenrow first
    and then in turn, whatever was ingested, selected or cleared. *)
Theorem rows_striped_by_position (ops : list Op) :
  exists self, run ops init = Ok self
    /\ row_tag <$> packet_tree self
       = stripe <$> seq 0 (List.length (packet_tree self)).
Proof.
  destruct (run_reaches ops) as (self & Hrun & Hreach & _).
  pose proof (view_stripes _ (view_ok_reachable _ Hreach)) as Hs.
  exists self. split; [done|].
  apply list_eq. intros i. rewrite !list_lookup_fmap.
  destruct (packet_tree self !! i) as [r|] eqn:Hi; simpl.
  - rewrite (lookup_seq_lt _ _ _ (lookup_lt_Some _ _ _ Hi)). simpl.
    by rewrite (Hs _ _ Hi).
  - rewrite lookup_seq_ge; [done|]. by apply lookup_ge_None.
Qed.

(** ** Selection *)

Lemma packet_callback_selected self packet self' :
  packet_callback self packet = Ok self' ->
  selected_conversation self' = selected_conversation self.
Proof.
  destruct (packet_callback_cases self packet) as [(ip & _ & ->)|[_ ->]];
    by intros [= <-].
Qed.

Lemma mainloop_idle_selected self :
  selected_conversation (mainloop_idle self) = selected_conversation self.
Proof.
  unfold mainloop_idle.
  apply (run_callbacks_preserves
           (fun s => selected_conversation s = selected_conversation self));
    [|done].
  intros s p rest Hs _.
  destruct (dispatch_cases s p rest) as [(ip & _ & ->)|[_ ->]].
  - by rewrite processed_selected.
  - done.
Qed.

(** X6.  A selection stays until the data is cleared: ingesting,
    starting and stopping a capture keep the selected conversation, a
    click on the panel replaces it by another one, and only clearing
    (or loading a capture file, which clears first) returns to the view
    of all packets. *)
Theorem selection_ends_only_with_clear
    (self : App) (op : Op) (self' : App) (k : FlowKey) :
  do_op self op = Ok self' ->
  selected_conversation self = Some k ->
  match op with
  | ClearData | UploadPcap Unreadable | UploadPcap (Capture _) =>
      selected_conversation self' = None
  | ClickConversation _ => is_Some (selected_conversation self')
  | Ingest _ | StartSniffing | StopSniffing | UploadPcap Cancelled =>
      selected_conversation self' = Some k
  end.
Proof.
  intros Hop Hsel. destruct op as [packet| | | |i|choice]; simpl in Hop.
  - apply bind_Ok in Hop as (self1 & H1 & [= <-]).
    by rewrite mainloop_idle_selected, (packet_callback_selected _ _ _ H1).
  - by injection Hop as <-.
  - injection Hop as <-. by rewrite CallWrapper_stop_sniffing.
  - injection Hop as <-. by rewrite CallWrapper_clear_data.
  - destruct (conv_scroll_frame self !! i) as [btn|]; injection Hop as <-.
    + rewrite CallWrapper_select_conversation. by eexists.
    + by eexists.
  - injection Hop as <-. rewrite mainloop_idle_selected, upload_pcap_eq.
    by destruct choice as [| |records].
Qed.

(** X7.  A click on a button of the panel changes neither the log, nor
    the store, nor the graph, however the handlers have interleaved
    before.  This rests on the buttons: select_conversation reads the
    defaultdict, and for a key that is not in the store it adds an
    empty conversation at the end. *)
Theorem click_leaves_storage_alone (self : App) (i : nat) (self' : App) :
  rtc step init self ->
  do_op self (ClickConversation i) = Ok self' ->
  packets self' = packets self
  /\ conversations self' = conversations self
  /\ graph self' = graph self
  /\ forall conv_key self'',
       DefaultDict.lookup conv_key (conversations self) = None ->
       select_conversation self conv_key = Ok self'' ->
       conversations self'' = conversations self ++ [(conv_key, Conv.fresh)].
Proof.
  intros Hsteps Hop. pose proof (store_ok_always _ Hsteps) as Hok.
  assert (forall conv_key self'',
            DefaultDict.lookup conv_key (conversations self) = None ->
            select_conversation self conv_key = Ok self'' ->
            conversations self'' = conversations self ++ [(conv_key, Conv.fresh)])
    as Hunknown.
  { intros conv_key self'' Hnone H.
    assert (self'' = CallWrapper (select_conversation self conv_key)) as ->
      by by rewrite H.
    rewrite CallWrapper_select_conversation. simpl.
    unfold DefaultDict.touch. by rewrite Hnone. }
  simpl in Hop. destruct (conv_scroll_frame self !! i) as [btn|] eqn:Hi;
    injection Hop as <-; [|by repeat split].
  destruct (store_ok_select self (btn_command btn) Hok) as [_ ->];
    [by eapply button_lookup_key|].
  by repeat split.
Qed.

(** ** Capture files *)

Lemma run_callbacks_graph n self :
  graph (run_callbacks n self) = graph self
  /\ is_sniffing (run_callbacks n self) = is_sniffing self.
Proof.
  apply (run_callbacks_preserves
           (fun s => graph s = graph self /\ is_sniffing s = is_sniffing self));
    [|done].
  intros s p rest [Hg Hb] _.
  destruct (dispatch_cases s p rest) as [(ip & _ & ->)|[_ ->]].
  - by rewrite processed_graph, processed_is_sniffing.
  - done.
Qed.

(** X5.  Loading a capture file: with the dialog cancelled nothing
    changes; an unreadable file still clears all data, since the clear
    comes before the file is read; and the packets of a file that is
    read are stored and never shown: the log holds those with an IP
    layer, every conversation its part of them, the graph their edges,
    while the table and the panel stay empty, since processing each of
    them raises [TypeError] before a row or a button is made. *)
Theorem upload_pcap_stores_without_showing (self : App) :
  after_callbacks self = [] ->
  do_op self (UploadPcap Cancelled) = Ok self
  /\ do_op self (UploadPcap Unreadable) = do_op self ClearData
  /\ forall records,
       exists self',
         do_op self (UploadPcap (Capture records)) = Ok self'
         /\ packets self' = List.filter has_IP (Scapy.rdpcap records)
         /\ (forall k,
               Conv.packets (DefaultDict.getitem k (conversations self')) =
                 log_of_flow k (packets self')
               /\ Conv.count (DefaultDict.getitem k (conversations self')) =
                  List.length (log_of_flow k (packets self')))
         /\ graph self' = edges_of (Scapy.rdpcap records) ∅
         /\ selected_conversation self' = None
         /\ packet_tree self' = []
         /\ conv_scroll_frame self' = []
         /\ is_sniffing self' = is_sniffing self.
Proof.
  intros Hq. split; [|split].
  - simpl. by rewrite mainloop_idle_nothing_pending.
  - simpl. rewrite clear_data_eq. simpl.
    by rewrite mainloop_idle_nothing_pending.
  - intros records. eexists. split; [reflexivity|].
    rewrite upload_pcap_eq. cbn [CallWrapper].
    set (loaded := set_after_callbacks _ _).
    assert (rtc step (cleared self) (mainloop_idle loaded)) as Hsteps.
    { etrans; [|apply run_callbacks_steps].
      apply (for_each_packet_callback_steps (Scapy.rdpcap records)).
      by rewrite for_each_packet_callback. }
    pose proof (store_ok_steps _ _ (store_ok_cleared self) Hsteps) as Hok.
    pose proof (view_ok_steps _ _ (store_ok_cleared self)
                  (view_ok_cleared self) Hsteps) as Hv.
    destruct (run_callbacks_from_file (List.length (after_callbacks loaded)) loaded)
      as (Hsel & Htree & Hframe); [done| |].
    { unfold loaded. simpl. rewrite Hq. apply Forall_float_time_rdpcap. }
    destruct (run_callbacks_graph (List.length (after_callbacks loaded)) loaded)
      as [Hg Hb].
    split; [rewrite mainloop_idle_log; unfold loaded; simpl; rewrite Hq; simpl;
            apply filter_has_IP_twice|].
    split; [intros k; split; [apply (view_flows _ Hv) | by apply count_of_flow]|].
    by repeat split.
Qed.

(** ** The graph *)

Lemma graph_ok_empty : graph_ok ∅.
Proof.
  split.
  - intros u v H. unfold Nx.neighbors in H. rewrite lookup_empty in H.
    by apply not_elem_of_empty in H.
  - intros u H. unfold Nx.nodes in H. rewrite dom_empty_L in H.
    by apply not_elem_of_empty in H.
Qed.

Lemma graph_ok_add_edge (g : Nx.Graph) a b :
  graph_ok g -> graph_ok (Nx.add_edge g a b).
Proof.
  intros [Hsym Hnb]. split.
  - intros u v. rewrite !nx_elem_of_neighbors_add_edge.
    intros [H|[[-> ->]|[-> ->]]]; auto.
  - intros u Hu. apply nodes_add_edge in Hu as [->|[->|Hu]].
    + exists b. apply nx_elem_of_neighbors_add_edge. auto.
    + exists a. apply nx_elem_of_neighbors_add_edge. auto.
    + destruct (Hnb u Hu) as [v Hv]. exists v.
      apply nx_elem_of_neighbors_add_edge. auto.
Qed.

Lemma graph_ok_effect self self' :
  store_ok self -> graph_ok (graph self) -> effect self self' ->
  graph_ok (graph self').
Proof.
  intros _ Hg Heff.
  destruct Heff as [packet ip Hip|packet ip rest Hq Hip|g b q [-> | ->]| |conv_key Hin];
    rewrite ?processed_graph; simpl; try done; try apply graph_ok_empty.
  by apply graph_ok_add_edge.
Qed.

Lemma graph_ok_always self : rtc step init self -> graph_ok (graph self).
Proof.
  apply (effect_invariant (fun s => graph_ok (graph s)));
    [apply graph_ok_empty | apply graph_ok_effect].
Qed.

(** X10.  The graph is undirected and has no isolated node: an edge
    from u to v is an edge from v to u, both ends of an edge are nodes,
    and every node has degree at least one. *)
Theorem graph_undirected_without_isolated_nodes (ops : list Op) :
  exists self, run ops init = Ok self
    /\ (forall u v, Nx.has_edge (graph self) u v = Nx.has_edge (graph self) v u)
    /\ (forall u v, Nx.has_edge (graph self) u v = true ->
          u ∈ Nx.nodes (graph self) /\ v ∈ Nx.nodes (graph self))
    /\ (forall u, u ∈ Nx.nodes (graph self) -> 1 <= Nx.degree (graph self) u).
Proof.
  destruct (run_reaches ops) as (self & Hrun & Hreach & _).
  destruct (graph_ok_always _ (reachable_steps _ Hreach)) as [Hsym Hnb].
  exists self. split; [done|]. split; [|split].
  - intros u v. unfold Nx.has_edge. apply bool_decide_ext. split; apply Hsym.
  - intros u v H. unfold Nx.has_edge in H. apply bool_decide_eq_true in H.
    split; [by eapply neighbors_node|]. eapply neighbors_node. by apply Hsym.
  - intros u Hu. destruct (Hnb u Hu) as [v Hv]. by eapply degree_pos.
Qed.

(** ** The network map *)

(** X11.  The map that is drawn.  With a conversation of two different
    addresses selected it is the graph of the two addresses and the
    one edge between them, with the sizes 3000 and 3000, whatever the
    communication graph holds; with a conversation of an address with
    itself selected nothing is drawn: the graph has one node, two
    sizes are given for it and [update_network_map] raises
    [ValueError].  Without a selection it is the communication graph:
    the text 'No network traffic to display' is shown exactly when
    that graph has no edge, and otherwise every node is drawn with
    size 100 * degree + 300, which is at least 400, the node of the
    machine's own address in gold and the others in blue. *)
Theorem network_map_drawn (self : App) :
  rtc step init self ->
  match selected_conversation self with
  | Some (ip1, ip2) =>
      if decide (ip1 = ip2) then update_network_map self = Raise ValueError self
      else
        exists drawing colors,
          update_network_map self = Ok drawing
          /\ drawing_nodes drawing = Some (SizesInOrder [3000; 3000], colors)
          /\ (forall u v,
                Nx.has_edge (drawing_graph drawing) u v = true
                <-> (u = ip1 /\ v = ip2) \/ (u = ip2 /\ v = ip1))
          /\ (forall u, u ∈ Nx.nodes (drawing_graph drawing)
                        <-> u = ip1 \/ u = ip2)
  | None =>
      exists drawing,
        update_network_map self = Ok drawing
        /\ drawing_graph drawing = graph self
        /\ (drawing_nodes drawing = None
            <-> forall u v, Nx.has_edge (graph self) u v = false)
        /\ forall node_sizes colors,
             drawing_nodes drawing = Some (node_sizes, colors) ->
             exists sizes,
               node_sizes = SizesByDegree sizes
               /\ forall u, u ∈ Nx.nodes (graph self) ->
                    sizes !! u = Some (Nx.degree (graph self) u * 100 + 300)
                    /\ 400 <= Nx.degree (graph self) u * 100 + 300
                    /\ colors !! u =
                       Some (if decide (u = local_ip host)
                             then "#FFD700" else "#1E90FF")
  end.
Proof.
  intros Hsteps. destruct (graph_ok_always _ Hsteps) as [Hsym Hnb].
  destruct (selected_conversation self) as [[ip1 ip2]|] eqn:Hsel.
  - destruct (decide (ip1 = ip2)) as [->|Hne].
    + by apply (update_network_map_same _ ip2).
    + destruct (update_network_map_distinct _ _ _ Hsel Hne) as [colors ->].
      eexists _, colors. split; [done|]. split; [done|]. simpl. split.
      * intros u v. unfold Nx.has_edge. rewrite bool_decide_eq_true.
        apply elem_of_neighbors_single.
      * intros u. rewrite nodes_add_edge. unfold Nx.nodes.
        rewrite dom_empty_L, elem_of_empty. tauto.
  - unfold update_network_map. rewrite Hsel.
    destruct (decide (Nx.nodes (graph self) = ∅)) as [He|Hne].
    + eexists. split; [done|]. simpl. split; [done|]. split; [|done].
      split; [|done]. intros _ u v. unfold Nx.has_edge.
      apply bool_decide_eq_false. intros Hv. apply neighbors_node in Hv.
      rewrite He in Hv. by apply not_elem_of_empty in Hv.
    + eexists. split; [done|]. simpl. split; [done|]. split.
      * split; [done|]. intros Hno. exfalso. apply Hne.
        apply set_eq. intros u. rewrite elem_of_empty. split; [|done].
        intros Hu. destruct (Hnb u Hu) as [v Hv].
        specialize (Hno u v). unfold Nx.has_edge in Hno.
        by apply bool_decide_eq_false in Hno.
      * intros node_sizes colors [= <- <-]. eexists. split; [reflexivity|].
        intros u Hu. rewrite !map_lookup_imap.
        pose proof Hu as Hu'. unfold Nx.nodes in Hu'.
        apply elem_of_dom in Hu' as [nb ->]. simpl.
        split; [done|]. split; [|done].
        destruct (Hnb u Hu) as [v Hv]. pose proof (degree_pos _ _ _ Hv). lia.
Qed.

(** ** Every interleaving *)

(** X12.  However the capture callbacks, the processing they schedule
    and the user's actions interleave, every conversation's count is
    the length of its packet list, only packets with an IP layer are
    stored, and every button of the panel stands for a conversation of
    the store: it carries the two addresses of its key, and the count
    it shows is not above the stored count (it is below when a packet
    from a capture file was recorded since the panel was made). *)
Theorem store_consistent_under_interleaving (self : App) :
  rtc step init self ->
  Forall (fun item => Conv.count item.2 = List.length (Conv.packets item.2)
                      /\ Forall (fun p => is_Some (ip_layer p)) (Conv.packets item.2))
         (conversations self)
  /\ Forall (fun btn =>
               (btn_ip1 btn, btn_ip2 btn) = btn_command btn
               /\ btn_command btn ∈ DefaultDict.keys (conversations self)
               /\ btn_count btn <=
                  Conv.count (DefaultDict.getitem (btn_command btn)
                                (conversations self)))
            (conv_scroll_frame self).
Proof.
  intros Hsteps. pose proof (store_ok_always _ Hsteps) as Hok. split.
  - pose proof (ok_count _ Hok) as Hc. pose proof (ok_stored _ Hok) as Hs.
    rewrite Forall_forall in Hc, Hs. apply Forall_forall. intros item Hin.
    split; [by apply Hc | by apply Hs].
  - eapply Forall_impl; [apply (ok_frame _ Hok)|].
    intros btn Hbtn. pose proof (button_ok_key _ _ Hbtn) as Hkey.
    destruct Hbtn as [Hip (c & Hc & Hle)].
    split; [done|]. split; [done|].
    unfold DefaultDict.getitem. by rewrite Hc.
Qed.

(** X13.  However the handlers interleave, every edge of the graph
    joins the two addresses of a stored conversation or of a packet
    whose processing is still pending. *)
Theorem edges_accounted_under_interleaving (self : App) (a b : string) :
  rtc step init self ->
  Nx.has_edge (graph self) a b = true ->
  conversation_key a b ∈ DefaultDict.keys (conversations self)
  \/ exists p, p ∈ after_callbacks self
               /\ packet_key p = Some (conversation_key a b).
Proof. intros Hsteps. by apply (edges_accounted_always _ Hsteps). Qed.

(** ** Export and panel *)

(** X17.  The CSV export writes the header and the rows of the table.
    When the times of the packets in view are floats (none was read
    from a capture file), these rows show the whole log if no
    conversation is selected and the packets of the selected
    conversation otherwise, and nothing is written exactly when there
    is no such packet or no file is chosen. *)
Theorem export_writes_the_view
    (ops : list Op) (self : App) (filepath : string) :
  run ops init = Ok self ->
  Forall (fun p => float_time p = true) (in_view self) ->
  Forall2 row_shows (packet_tree self) (in_view self)
  /\ download_csv self filepath =
     if decide (in_view self = [] \/ filepath = "") then None
     else Some (columns, packet_tree self).
Proof.
  intros Hrun Hfloat.
  assert (reachable self) as Hreach by by exists ops.
  destruct (reachable_idle_ok _ Hreach) as (Hok & _ & _).
  pose proof (view_ok_reachable _ Hreach) as Hv.
  assert (Forall2 row_shows (packet_tree self) (in_view self)) as Hshow.
  { unfold in_view in *.
    destruct (selected_conversation self) as [k|] eqn:Hsel.
    - rewrite <-(view_flows _ Hv) in *. by apply (view_filtered _ Hv).
    - pose proof (ok_tree_live _ Hok Hsel) as Hlive.
      rewrite (numbered_live_all _ _ Hfloat) in Hlive.
      by apply row_numbered_all in Hlive as [_ ?]. }
  split; [done|]. rewrite download_csv_eq.
  apply Forall2_length in Hshow.
  destruct (packet_tree self) as [|r rows], (in_view self) as [|p view];
    try discriminate Hshow.
  - by rewrite !decide_True by auto.
  - destruct (decide (filepath = "")) as [->|Hf].
    + by rewrite !decide_True by auto.
    + rewrite !decide_False; [done| |]; by intros [?|?].
Qed.

(** X18.  Every button of the panel stands for a conversation of the
    store: its text gives the two addresses of its key and, as count,
    the number of packets of the log between these two addresses. *)
Theorem panel_counts_the_log (ops : list Op) :
  exists self, run ops init = Ok self
    /\ Forall (fun btn =>
                 (btn_ip1 btn, btn_ip2 btn) = btn_command btn
                 /\ btn_command btn ∈ DefaultDict.keys (conversations self)
                 /\ btn_count btn =
                    List.length (log_of_flow (btn_command btn) (packets self)))
              (conv_scroll_frame self).
Proof.
  destruct (run_reaches ops) as (self & Hrun & Hreach & (Hok & _ & Hfresh)).
  pose proof (view_ok_reachable _ Hreach) as Hv.
  exists self. split; [done|]. destruct Hfresh as [-> | ->]; [|constructor].
  apply Forall_forall. intros btn Hbtn.
  apply list_elem_of_fmap in Hbtn as ([[ip1 ip2] c] & -> & Hitem). simpl.
  unfold sorted_convs in Hitem. rewrite sorted_perm in Hitem.
  split; [done|]. split.
  - unfold DefaultDict.keys. apply list_elem_of_fmap. by exists (ip1, ip2, c).
  - pose proof (dd_lookup_of_elem _ _ _ (ok_nodup _ Hok) Hitem) as Hl.
    pose proof (view_flows _ Hv (ip1, ip2)) as Hf.
    unfold DefaultDict.getitem in Hf. rewrite Hl in Hf. simpl in Hf.
    rewrite <-Hf. pose proof (ok_count _ Hok) as Hc.
    rewrite Forall_forall in Hc. apply (Hc _ Hitem).
Qed.

(** ** Address look-up *)

(** An address with one of the four listed prefixes is answered
    locally, whatever the network would say. *)
Lemma listed_prefix_answered_locally requests_get ip :
  Py.startswith ip ["10."; "192.168."; "172.16."; "127.0.0.1"] = true ->
  _fetch_ip_info requests_get ip = Ok (local_answer ip).
Proof. intros H. unfold _fetch_ip_info. by rewrite H. Qed.

Lemma prefix_empty s : String.prefix "" s = true.
Proof. by destruct s. Qed.

Lemma prefix_app s t : String.prefix s (s ++ t)%string = true.
Proof.
  induction s as [|c s IH]; simpl; [apply prefix_empty|].
  destruct (Ascii.ascii_dec c c); [exact IH|congruence].
Qed.

Lemma block_10_answered_locally requests_get b c d :
  _fetch_ip_info requests_get (dotted 10 b c d) = Ok (local_answer (dotted 10 b c d)).
Proof.
  apply listed_prefix_answered_locally.
  unfold Py.startswith, dotted. change (Py.str 10) with "10".
  simpl. by rewrite prefix_empty.
Qed.

Lemma block_192_168_answered_locally requests_get c d :
  _fetch_ip_info requests_get (dotted 192 168 c d) =
  Ok (local_answer (dotted 192 168 c d)).
Proof.
  apply listed_prefix_answered_locally.
  unfold Py.startswith, dotted.
  change (Py.str 192) with "192". change (Py.str 168) with "168".
  simpl. by rewrite prefix_empty.
Qed.

(** [data[k]] raises nothing but [KeyError], and only for a key that
    the object does not have. *)
Lemma dict_getitem_cases {S : Type} (s : S) k data :
  match dict_getitem s k data with
  | Ok v => (k, v) ∈ data
  | Raise e s' => e = KeyError /\ s' = s /\ k ∉ data.*1
  end.
Proof.
  induction data as [|[k' v] data IH]; simpl.
  - split; [done|]. split; [done|]. apply not_elem_of_nil.
  - destruct (decide (k' = k)) as [->|Hne]; [apply list_elem_of_here|].
    destruct (dict_getitem s k data) as [v'|e s'].
    + by apply list_elem_of_further.
    + destruct IH as (-> & -> & Hnot). split; [done|]. split; [done|].
      intros H. apply elem_of_cons in H as [H|H]; [|done]. by apply Hne.
Qed.

Lemma _fetch_ip_info_cases (requests_get : string -> HttpReply) (ip : string) :
  match _fetch_ip_info requests_get ip with
  | Ok (info_str, urls) =>
      String.prefix "IP: " info_str = true
      /\ urls = (if Py.startswith ip local_prefixes then [] else [api_url ip])
  | Raise e urls =>
      Py.startswith ip local_prefixes = false
      /\ urls = [api_url ip]
      /\ ((e = KeyError
           /\ exists data, requests_get (api_url ip) = Json data
                           /\ "status" ∉ data.*1)
          \/ (e = TypeError /\ requests_get (api_url ip) = JsonNotObject))
  end.
Proof.
  unfold _fetch_ip_info. fold local_prefixes. fold (api_url ip).
  destruct (Py.startswith ip local_prefixes); [by split; [apply prefix_app|]|].
  destruct (requests_get (api_url ip)) as [|data|] eqn:Hreply;
    [by split; [apply prefix_app|] | | by repeat split; right].
  pose proof (dict_getitem_cases [api_url ip] "status" data) as Hget.
  destruct (dict_getitem [api_url ip] "status" data) as [status|e urls]; simpl.
  - destruct (decide (status = JString "success")); by split; [apply prefix_app|].
  - destruct Hget as (-> & -> & Hnot). split; [done|]. split; [done|].
    left. split; [done|]. by exists data.
Qed.

(** C9 fails on the program: 172.20.0.1 lies in 172.16.0.0/12 and
    127.0.0.2 is a loopback address, yet both are requested from the
    network, since only the prefixes "172.16." and "127.0.0.1" are
    recognised. *)
Theorem private_addresses_requested_from_network :
  spec_private_range 172 20 0 1 = true
  /\ dotted 172 20 0 1 = "172.20.0.1"
  /\ _fetch_ip_info (fun _ => RequestException) "172.20.0.1" =
     Ok (("IP: 172.20.0.1" ++ nl ++ "Status: Error" ++ nl ++
          "Reason: API request failed.")%string,
         ["http://ip-api.com/json/172.20.0.1"])
  /\ spec_private_range 127 0 0 2 = true
  /\ _fetch_ip_info (fun _ => RequestException) (dotted 127 0 0 2) =
     Ok (("IP: 127.0.0.2" ++ nl ++ "Status: Error" ++ nl ++
          "Reason: API request failed.")%string,
         ["http://ip-api.com/json/127.0.0.2"]).
Proof. conj; vm_compute; reflexivity. Qed.

(** X14.  What a look-up can come to.  It makes no request for an
    address with one of the listed prefixes and exactly one request,
    for the address's own URL, otherwise; it never asks twice.  When
    it returns, its text starts with "IP: ".  Two exceptions pass its
    [except requests.RequestException]: the [KeyError] of a reply that
    is a JSON object without a "status" field, and the [TypeError] of
    a reply that is JSON but not an object. *)
Theorem fetch_ip_info_outcomes (requests_get : string -> HttpReply) (ip : string) :
  match _fetch_ip_info requests_get ip with
  | Ok (info_str, urls) =>
      String.prefix "IP: " info_str = true
      /\ urls = (if Py.startswith ip local_prefixes then [] else [api_url ip])
  | Raise e urls =>
      Py.startswith ip local_prefixes = false
      /\ urls = [api_url ip]
      /\ ((e = KeyError
           /\ exists data, requests_get (api_url ip) = Json data
                           /\ "status" ∉ data.*1)
          \/ (e = TypeError /\ requests_get (api_url ip) = JsonNotObject))
  end.
Proof. apply _fetch_ip_info_cases. Qed.

Lemma shiftr_ipv4_value_24 a b c d :
  (0 <= b < 256)%Z -> (0 <= c < 256)%Z -> (0 <= d < 256)%Z ->
  Z.shiftr (ipv4_value a b c d) 24 = a.
Proof.
  intros Hb Hc Hd. unfold ipv4_value.
  rewrite !Z.shiftr_lor, Z.shiftr_shiftl_l by lia.
  rewrite !Z.shiftl_mul_pow2, !Z.shiftr_div_pow2 by lia.
  replace (24 - 24)%Z with 0%Z by lia.
  rewrite (Z.div_small (b * 2 ^ 16)), (Z.div_small (c * 2 ^ 8)), (Z.div_small d)
    by lia.
  rewrite !Z.lor_0_r. simpl. lia.
Qed.

Lemma shiftr_ipv4_value_16 a b c d :
  (0 <= a)%Z -> (0 <= b < 256)%Z -> (0 <= c < 256)%Z -> (0 <= d < 256)%Z ->
  Z.shiftr (ipv4_value a b c d) 16 = Z.lor (Z.shiftl a 8) b.
Proof.
  intros Ha Hb Hc Hd. unfold ipv4_value.
  rewrite !Z.shiftr_lor, (Z.shiftr_shiftl_l a), (Z.shiftr_shiftl_l b) by lia.
  rewrite (Z.shiftl_mul_pow2 c), !Z.shiftr_div_pow2 by lia.
  rewrite (Z.div_small (c * 2 ^ 8)), (Z.div_small d) by lia.
  rewrite !Z.lor_0_r. replace (24 - 16)%Z with 8%Z by lia.
  replace (16 - 16)%Z with 0%Z by lia. by rewrite Z.shiftl_0_r.
Qed.

Lemma high_and_low_octet a b :
  (0 <= a)%Z -> (0 <= b < 256)%Z ->
  Z.shiftr (Z.lor (Z.shiftl a 8) b) 8 = a
  /\ Z.land (Z.lor (Z.shiftl a 8) b) (Z.ones 8) = b.
Proof.
  intros Ha Hb. split.
  - rewrite Z.shiftr_lor, Z.shiftr_shiftl_l by lia.
    rewrite (Z.shiftr_div_pow2 b), (Z.div_small b) by lia.
    rewrite Z.lor_0_r. replace (8 - 8)%Z with 0%Z by lia. apply Z.shiftl_0_r.
  - rewrite Z.land_lor_distr_l, !Z.land_ones by lia.
    rewrite Z.shiftl_mul_pow2 by lia.
    rewrite Z.mod_mul by lia. rewrite Z.mod_small by lia. apply Z.lor_0_l.
Qed.

Lemma block_10_first_octet a b c d :
  (0 <= b < 256)%Z -> (0 <= c < 256)%Z -> (0 <= d < 256)%Z ->
  in_block (ipv4_value a b c d) (ipv4_value 10 0 0 0) 8 = true -> a = 10%Z.
Proof.
  intros Hb Hc Hd H. unfold in_block in H. apply Z.eqb_eq in H.
  replace (32 - 8)%Z with 24%Z in H by lia.
  rewrite (shiftr_ipv4_value_24 a) in H by done.
  by rewrite (shiftr_ipv4_value_24 10) in H by lia.
Qed.

Lemma block_192_168_first_octets a b c d :
  (0 <= a)%Z -> (0 <= b < 256)%Z -> (0 <= c < 256)%Z -> (0 <= d < 256)%Z ->
  in_block (ipv4_value a b c d) (ipv4_value 192 168 0 0) 16 = true ->
  a = 192%Z /\ b = 168%Z.
Proof.
  intros Ha Hb Hc Hd H. unfold in_block in H. apply Z.eqb_eq in H.
  replace (32 - 16)%Z with 16%Z in H by lia.
  rewrite (shiftr_ipv4_value_16 a), (shiftr_ipv4_value_16 192) in H by lia.
  destruct (high_and_low_octet a b Ha Hb) as [E1 E2].
  destruct (high_and_low_octet 192 168) as [F1 F2]; [lia|lia|].
  rewrite H in E1, E2. split; congruence.
Qed.

(** X15.  Every address of the blocks 10.0.0.0/8 and 192.168.0.0/16 is
    answered on the spot with the "Private/Local Address" text and
    without a request, whatever the network would reply. *)
Theorem blocks_10_and_192_168_answered_locally
    (requests_get : string -> HttpReply) (a b c d : Z) :
  (0 <= a < 256)%Z -> (0 <= b < 256)%Z -> (0 <= c < 256)%Z -> (0 <= d < 256)%Z ->
  in_block (ipv4_value a b c d) (ipv4_value 10 0 0 0) 8
  || in_block (ipv4_value a b c d) (ipv4_value 192 168 0 0) 16 = true ->
  _fetch_ip_info requests_get (dotted a b c d) = Ok (local_answer (dotted a b c d)).
Proof.
  intros Ha Hb Hc Hd H. apply orb_true_iff in H as [H|H].
  - apply block_10_first_octet in H as ->; [|done..].
    apply block_10_answered_locally.
  - apply block_192_168_first_octets in H as [-> ->]; [|lia|done..].
    apply block_192_168_answered_locally.
Qed.

(** ** The address text boxes *)

Lemma string_app_empty s : (s ++ "")%string = s.
Proof.
  induction s as [|c s IH]; [reflexivity|].
  change (String c (s ++ "")%string = String c s). by f_equal.
Qed.

(** X16.  A look-up from start to end.  For an empty address or 'N/A'
    the text box is left as it is.  Otherwise, whatever the box held
    and whether or not it was disabled, it ends read-only with a text
    that starts with "IP: "; unless the reply is a JSON object without
    a "status" field or JSON that is not an object: then the thread
    ends with the exception ([KeyError] or [TypeError]) and the box
    stays editable with the text "Looking up <ip>...". *)
Theorem look_up_leaves_box
    (requests_get : string -> HttpReply) (ip : string) (box : TextBox) :
  (ip = "" \/ ip = "N/A" -> look_up requests_get ip box = box)
  /\ (ip <> "" -> ip <> "N/A" ->
      (tb_disabled (look_up requests_get ip box) = true
       /\ String.prefix "IP: " (tb_text (look_up requests_get ip box)) = true)
      \/ (look_up requests_get ip box =
            mkTextBox ("Looking up " ++ ip ++ "...")%string false
          /\ ((exists data, requests_get (api_url ip) = Json data
                            /\ "status" ∉ data.*1)
              \/ requests_get (api_url ip) = JsonNotObject))).
Proof.
  unfold look_up, get_ip_info. split.
  - intros H. by rewrite decide_True.
  - intros H1 H2. rewrite decide_False by (intros [?|?]; done).
    pose proof (_fetch_ip_info_cases requests_get ip) as Hcases.
    assert (tb_insert_start ("Looking up " ++ ip ++ "...")%string
              (tb_delete_all (tb_configure false box))
            = mkTextBox ("Looking up " ++ ip ++ "...")%string false) as ->.
    { unfold tb_insert_start, tb_delete_all, tb_configure. simpl.
      by rewrite string_app_empty. }
    destruct (_fetch_ip_info requests_get ip) as [[info_str urls]|e urls].
    + left. destruct Hcases as [Hp _].
      unfold _update_textbox, tb_insert_start, tb_delete_all, tb_configure. simpl.
      split; [done|]. by rewrite string_app_empty.
    + right. destruct Hcases as (_ & _ & [[_ Hdata]|[_ Hdata]]); auto.
Qed.

End Application.

(** * The properties on a machine

    The machine [lab], one hour east of Greenwich, and the sample
    traffic. *)

Local Open Scope list_scope.

Lemma sample_ops_reachable : reachable lab (state_after lab sample_ops).
Proof. exists sample_ops. vm_compute. reflexivity. Qed.

Lemma file_then_live_reachable : reachable lab (state_after lab file_then_live).
Proof. exists file_then_live. vm_compute. reflexivity. Qed.

(** ** Examples *)

Example conversation_key_ex1 :
  conversation_key "10.0.0.2" "10.0.0.1" = ("10.0.0.1", "10.0.0.2").
Proof. reflexivity. Qed.

Example conversation_key_ex2 :
  conversation_key "9.9.9.9" "10.0.0.1" = ("10.0.0.1", "9.9.9.9").
Proof. reflexivity. Qed.

Example strftime_ex : Py.strftime_HMS 3723 = "01:02:03".
Proof. reflexivity. Qed.

Example str_ex : Py.str 47 = "47".
Proof. reflexivity. Qed.

Example lookup_192_168_1_5 requests_get :
  _fetch_ip_info requests_get "192.168.1.5" = Ok (local_answer "192.168.1.5").
Proof. apply listed_prefix_answered_locally. reflexivity. Qed.

(** The Time column is the local time of the machine. *)
Example scenario_local_time :
  map row_time (packet_tree (state_after lab [Ingest (pkt hostA hostB 6 60)]))
  = ["01:00:00"].
Proof. vm_compute. reflexivity. Qed.

(** Three packets of two flows: counts, nodes, edges and degrees. *)
Example scenario_counts_and_graph :
  map (fun item => (item.1, Conv.count item.2))
      (conversations (state_after lab [Ingest pAB; Ingest pBA; Ingest pAC]))
  = [((hostA, hostB), 2); ((hostA, hostC), 1)]
  /\ bool_decide (Nx.nodes (graph (state_after lab [Ingest pAB; Ingest pBA; Ingest pAC]))
                  = {[hostA; hostB; hostC]}) = true
  /\ map (Nx.degree (graph (state_after lab [Ingest pAB; Ingest pBA; Ingest pAC])))
         [hostA; hostB; hostC] = [2; 1; 1]
  /\ Nx.has_edge (graph (state_after lab [Ingest pAB; Ingest pBA; Ingest pAC]))
                 hostB hostC = false.
Proof. conj; vm_compute; reflexivity. Qed.

(** After a clear the store and the graph are empty and the next packet
    is number 1. *)
Example scenario_clear :
  conversations (state_after lab [Ingest pAB; Ingest pBA; Ingest pAC; ClearData]) = []
  /\ bool_decide
       (graph (state_after lab [Ingest pAB; Ingest pBA; Ingest pAC; ClearData]) = ∅)
     = true
  /\ map row_no
       (packet_tree
          (state_after lab [Ingest pAB; Ingest pBA; Ingest pAC; ClearData; Ingest pBA]))
     = [1].
Proof. conj; vm_compute; reflexivity. Qed.

(** With {A,B} selected a packet from A to C is stored and not shown;
    selecting {A,C} then shows it. *)
Example scenario_selection :
  map row_source
      (packet_tree (state_after lab [Ingest pAB; ClickConversation 0; Ingest pAC]))
  = [hostA]
  /\ map row_destination
       (packet_tree (state_after lab [Ingest pAB; ClickConversation 0; Ingest pAC]))
     = [hostB]
  /\ map (fun p => ip_layer p)
       (packets (state_after lab [Ingest pAB; ClickConversation 0; Ingest pAC]))
     = [ip_layer pAB; ip_layer pAC]
  /\ map row_destination
       (packet_tree
          (state_after lab [Ingest pAB; ClickConversation 0; Ingest pAC;
                            ClickConversation 1]))
     = [hostC].
Proof. conj; vm_compute; reflexivity. Qed.

(** The packets of a capture file are stored and counted, their edges
    are in the graph, and neither a row nor a button is made for them:
    the time of such a packet is not a float. *)
Example scenario_capture_file :
  map (fun item => (item.1, Conv.count item.2))
      (conversations (state_after lab [UploadPcap (Capture [pAC; arp; pAB; pBA])]))
  = [((hostA, hostC), 1); ((hostA, hostB), 2)]
  /\ List.length (packets (state_after lab [UploadPcap (Capture [pAC; arp; pAB; pBA])]))
     = 3
  /\ Nx.has_edge (graph (state_after lab [UploadPcap (Capture [pAC; arp; pAB; pBA])]))
                 hostB hostA = true
  /\ packet_tree (state_after lab [UploadPcap (Capture [pAC; arp; pAB; pBA])]) = []
  /\ conv_scroll_frame (state_after lab [UploadPcap (Capture [pAC; arp; pAB; pBA])])
     = [].
Proof. conj; vm_compute; reflexivity. Qed.

(** A conversation of an address with itself can be selected, and the
    map is not drawn for it. *)
Example scenario_self_conversation :
  selected_conversation (state_after lab [Ingest pAA; ClickConversation 0])
  = Some (hostA, hostA)
  /\ map row_no (packet_tree (state_after lab [Ingest pAA; ClickConversation 0]))
     = [1].
Proof. conj; vm_compute; reflexivity. Qed.

(** The callback of a packet adds the edge at once and the store entry
    only when the main loop runs it: a clear that comes in between
    leaves a stored flow without an edge. *)
Example clear_before_the_callback_runs :
  DefaultDict.keys (conversations (processed_after_clear lab)) = [(hostA, hostB)]
  /\ Nx.has_edge (graph (processed_after_clear lab)) hostA hostB = false.
Proof. conj; vm_compute; reflexivity. Qed.

Lemma edge_ahead_steps : rtc (step lab) init edge_ahead.
Proof.
  apply rtc_once. apply (step_packet lab init pAB). vm_compute. reflexivity.
Qed.

Lemma stale_panel_steps : rtc (step lab) init (stale_panel lab).
Proof.
  unfold stale_panel, mainloop_idle.
  etrans; [|apply run_callbacks_steps].
  eapply rtc_r; [eapply rtc_r; [apply edge_ahead_steps | apply step_clear]|].
  apply (step_packet lab _ (Scapy.read pBA)). vm_compute. reflexivity.
Qed.

(** ** Graph and store *)

Lemma graph_edges_are_stored_flows_witness :
  Nx.has_edge (graph (state_after lab (StartSniffing :: sample_ops))) hostC hostA = true
  /\ Nx.has_edge (graph (state_after lab (StartSniffing :: sample_ops))) hostA hostB
     = true.
Proof.
  destruct (graph_edges_are_stored_flows lab (StartSniffing :: sample_ops))
    as (self & Hrun & _ & Hf).
  assert (self = state_after lab (StartSniffing :: sample_ops)) as ->.
  { unfold state_after. by rewrite Hrun. }
  assert (graph_in_step lab (StartSniffing :: sample_ops) init true = true) as Hb.
  { vm_compute. reflexivity. }
  specialize (Hf Hb). split.
  - apply (Hf (hostA, hostC)). vm_compute. left.
  - apply (Hf (hostA, hostB)). vm_compute. right. left.
Defined.

(** C1 as it is stated fails: a second capture session empties the
    graph and keeps the conversations of the first. *)
Lemma graph_store_consistency_fails :
  ~ (forall ops self, run lab ops init = Ok self -> graph_store_consistent self).
Proof.
  intros H.
  assert (run lab two_sessions init = Ok (state_after lab two_sessions)) as Hrun.
  { vm_compute. reflexivity. }
  destruct (H _ _ Hrun) as [_ Hf].
  assert ((hostA, hostB)
          ∈ DefaultDict.keys (conversations (state_after lab two_sessions)))
    as Hk.
  { vm_compute. left. }
  assert (Nx.has_edge (graph (state_after lab two_sessions)) hostA hostB = false)
    as Hno by (vm_compute; reflexivity).
  assert (false = true) as Hbad by (rewrite <-Hno; exact (Hf _ Hk)).
  discriminate Hbad.
Qed.

(** ** Ingestion *)

(** A packet of a capture file, with nothing selected: it is stored,
    and no row is made for it, [_process_packet] raising [TypeError]
    on its way to the table.  A packet from the network of another
    flow than the selected one: it is stored and no row is made. *)
Lemma ingest_stores_whatever_is_selected_witness :
  surfaced init (hostA, hostB) = true
  /\ _process_packet lab init (Scapy.read pAB) =
     Raise TypeError (CallWrapper (_process_packet lab init (Scapy.read pAB)))
  /\ packets (CallWrapper (_process_packet lab init (Scapy.read pAB)))
     = [Scapy.read pAB]
  /\ DefaultDict.lookup (hostA, hostB)
       (conversations (CallWrapper (_process_packet lab init (Scapy.read pAB))))
     = Some (Conv.mk 1 [Scapy.read pAB])
  /\ packet_tree (CallWrapper (_process_packet lab init (Scapy.read pAB))) = []
  /\ surfaced (state_after lab [Ingest pAB; ClickConversation 0]) (hostA, hostC)
     = false
  /\ DefaultDict.lookup (hostA, hostC)
       (conversations
          (CallWrapper
             (_process_packet lab (state_after lab [Ingest pAB; ClickConversation 0])
                              pAC)))
     = Some (Conv.mk 1 [pAC])
  /\ packet_tree
       (CallWrapper
          (_process_packet lab (state_after lab [Ingest pAB; ClickConversation 0])
                           pAC))
     = packet_tree (state_after lab [Ingest pAB; ClickConversation 0]).
Proof.
  assert (conversation_key (src (mkIP hostA hostB 6)) (dst (mkIP hostA hostB 6))
          = (hostA, hostB)) as Hk by reflexivity.
  assert (conversation_key (src (mkIP hostA hostC 17)) (dst (mkIP hostA hostC 17))
          = (hostA, hostC)) as Hk2 by reflexivity.
  assert (packets init = []) as Hnil by reflexivity.
  assert (surfaced init (hostA, hostB) = true) as Hs
    by (vm_compute; reflexivity).
  assert (DefaultDict.getitem (hostA, hostB) (conversations init) = Conv.fresh)
    as Hfresh by (vm_compute; reflexivity).
  assert (surfaced (state_after lab [Ingest pAB; ClickConversation 0])
                   (hostA, hostC) = false) as Hs2
    by (vm_compute; reflexivity).
  assert (DefaultDict.getitem (hostA, hostC)
            (conversations (state_after lab [Ingest pAB; ClickConversation 0]))
          = Conv.fresh) as Hfresh2 by (vm_compute; reflexivity).
  pose proof (ingest_stores_whatever_is_selected lab init (Scapy.read pAB)
                (mkIP hostA hostB 6) eq_refl) as H1.
  cbv zeta in H1. rewrite Hk, Hs, Hfresh, Hnil in H1.
  cbn [andb Conv.count Conv.packets Conv.fresh Nat.add app float_time Scapy.read
       time] in H1.
  destruct H1 as (Hlog & Hconv & _ & _ & _ & Htree & Hraise & _).
  pose proof (ingest_stores_whatever_is_selected lab
                (state_after lab [Ingest pAB; ClickConversation 0]) pAC
                (mkIP hostA hostC 17) eq_refl) as H2.
  cbv zeta in H2. rewrite Hk2, Hs2, Hfresh2 in H2.
  cbn [andb Conv.count Conv.packets Conv.fresh Nat.add app] in H2.
  destruct H2 as (_ & Hconv2 & _ & _ & _ & Htree2 & _).
  split; [exact Hs|].
  split; [exact (Hraise eq_refl eq_refl)|].
  split; [exact Hlog|].
  split; [exact Hconv|].
  split; [exact Htree|].
  split; [exact Hs2|].
  split; [exact Hconv2 | exact Htree2].
Defined.

(** ** Packets without an IP layer *)

Lemma non_ip_packet_changes_nothing_witness :
  packet_callback (state_after lab [Ingest pAB]) arp
  = Ok (state_after lab [Ingest pAB])
  /\ do_op lab (state_after lab [Ingest pAB]) (Ingest arp)
     = Ok (state_after lab [Ingest pAB]).
Proof.
  destruct (non_ip_packet_changes_nothing lab (state_after lab [Ingest pAB]) arp
              eq_refl)
    as (H1 & _ & H3).
  split; [exact H1 | apply H3; vm_compute; reflexivity].
Defined.

(** ** The conversation list *)


(** ** Sequence numbers *)



Lemma numbering_restarts_at_clear_witness :
  exists self2,
    run lab [ClearData; Ingest pBA] (state_after lab sample_ops) = Ok self2
    /\ packets self2 = [Scapy.sniffed pBA]
    /\ map row_no (packet_tree self2) = [1].
Proof.
  destruct (numbering_restarts_at_clear lab (state_after lab sample_ops) pBA
              (mkIP hostB hostA 6) sample_ops_reachable eq_refl)
    as (self1 & self2 & _ & _ & _ & Hrun & Hlog & Hno).
  exists self2. split; [exact Hrun|]. split; [exact Hlog | exact Hno].
Defined.

(** C6 as it is stated fails: the first packet after a clear is given
    number 1 again. *)
Lemma numbers_reused_after_clear :
  ~ (forall ops1 ops2 self1 self2 r1 r2,
       run lab ops1 init = Ok self1 ->
       run lab (ClearData :: ops2) self1 = Ok self2 ->
       r1 ∈ packet_tree self1 -> r2 ∈ packet_tree self2 ->
       row_no r1 < row_no r2).
Proof.
  intros H.
  assert (run lab [Ingest pAB] init = Ok (state_after lab [Ingest pAB])) as Hrun1.
  { vm_compute. reflexivity. }
  assert (run lab [ClearData; Ingest pAB] (state_after lab [Ingest pAB]) =
          Ok (state_after lab [Ingest pAB; ClearData; Ingest pAB])) as Hrun2.
  { vm_compute. reflexivity. }
  assert (displayed_row lab 1 0 pAB (mkIP hostA hostB 6)
          ∈ packet_tree (state_after lab [Ingest pAB])) as Hr1.
  { vm_compute. left. }
  assert (displayed_row lab 1 0 pAB (mkIP hostA hostB 6)
          ∈ packet_tree (state_after lab [Ingest pAB; ClearData; Ingest pAB])) as Hr2.
  { vm_compute. left. }
  exact (Nat.lt_irrefl 1 (H _ _ _ _ _ _ Hrun1 Hrun2 Hr1 Hr2)).
Qed.

(** ** Re-display of a conversation *)

(** The two packets between A and B, of four in the log, are both
    shown as number 4; after a capture file the first stored packet of
    the conversation is from the file, and selecting it shows
    nothing. *)
Lemma redisplayed_rows_numbered_with_log_length_witness :
  map row_no
      (packet_tree
         (CallWrapper (select_conversation lab (state_after lab sample_ops)
                                           (hostA, hostB))))
  = [4; 4]
  /\ select_conversation lab (state_after lab sample_ops) (hostA, hostB)
     = Ok (CallWrapper (select_conversation lab (state_after lab sample_ops)
                                            (hostA, hostB)))
  /\ download_csv
       (CallWrapper (select_conversation lab (state_after lab sample_ops)
                                         (hostA, hostB)))
       "capture.csv"
     = Some (columns,
             packet_tree
               (CallWrapper (select_conversation lab (state_after lab sample_ops)
                                                 (hostA, hostB))))
  /\ packet_tree
       (CallWrapper (select_conversation lab (state_after lab file_then_live)
                                         (hostA, hostB)))
     = [].
Proof.
  pose proof (redisplayed_rows_numbered_with_log_length lab
                (state_after lab sample_ops) (hostA, hostB) sample_ops_reachable)
    as H.
  cbv zeta in H. destruct H as (_ & _ & Hno & _ & Hshow & Hok & Hcsv).
  pose proof (redisplayed_rows_numbered_with_log_length lab
                (state_after lab file_then_live) (hostA, hostB)
                file_then_live_reachable) as H'.
  cbv zeta in H'. destruct H' as (_ & _ & _ & Hprefix & _).
  assert (List.length (packets (state_after lab sample_ops)) = 4) as Hlen.
  { vm_compute. reflexivity. }
  assert (Conv.packets (DefaultDict.getitem (hostA, hostB)
                          (conversations (state_after lab sample_ops)))
          = [Scapy.sniffed pAB; Scapy.sniffed pBA]) as Hstored.
  { vm_compute. reflexivity. }
  assert (shown_prefix
            (Conv.packets (DefaultDict.getitem (hostA, hostB)
                             (conversations (state_after lab file_then_live))))
          = []) as Hnone.
  { vm_compute. reflexivity. }
  rewrite Hlen in Hno. rewrite Hstored in Hshow, Hok. rewrite Hnone in Hprefix.
  assert (Forall (fun p => float_time p = true)
                 [Scapy.sniffed pAB; Scapy.sniffed pBA]) as Hfloat
    by (repeat constructor).
  specialize (Hshow Hfloat). apply Forall2_length in Hshow.
  assert (select_conversation lab (state_after lab sample_ops) (hostA, hostB)
          = Ok (CallWrapper (select_conversation lab (state_after lab sample_ops)
                                                 (hostA, hostB)))) as Hsel.
  { apply Hok. split; [exact Hfloat|]. intros E. discriminate E. }
  specialize (Hcsv "capture.csv").
  apply Forall2_nil_inv_r in Hprefix.
  split; [|split; [exact Hsel|split; [|exact Hprefix]]].
  - destruct (packet_tree
                (CallWrapper (select_conversation lab (state_after lab sample_ops)
                                                  (hostA, hostB))))
      as [|r1 [|r2 [|r3 rows]]]; try discriminate Hshow.
    apply Forall_cons in Hno as [E1 Hno]. apply Forall_cons in Hno as [E2 _].
    cbn [map]. rewrite E1, E2. reflexivity.
  - rewrite Hcsv.
    destruct (packet_tree
                (CallWrapper (select_conversation lab (state_after lab sample_ops)
                                                  (hostA, hostB))))
      as [|r1 rows]; [discriminate Hshow|].
    rewrite decide_False; [reflexivity|]. intros [E|E]; discriminate E.
Defined.

(** ** Store, log and table *)

Lemma filtered_table_is_selected_conversation_witness :
  Forall2 row_shows (packet_tree (state_after lab filtered_ops))
          [Scapy.sniffed pAB; Scapy.sniffed pAB].
Proof.
  assert (run lab filtered_ops init = Ok (state_after lab filtered_ops)) as Hrun.
  { vm_compute. reflexivity. }
  assert (selected_conversation (state_after lab filtered_ops)
          = Some (hostA, hostB)) as Hsel.
  { vm_compute. reflexivity. }
  assert (log_of_flow (hostA, hostB) (packets (state_after lab filtered_ops))
          = [Scapy.sniffed pAB; Scapy.sniffed pAB]) as Hlog.
  { vm_compute. reflexivity. }
  pose proof (filtered_table_is_selected_conversation lab _ _ _ Hrun Hsel) as H.
  rewrite Hlog in H. apply H. repeat constructor.
Defined.

(** ** Selection *)

Lemma selection_ends_only_with_clear_witness :
  selected_conversation
    (state_after lab [Ingest pAB; ClickConversation 0; Ingest pAC; StartSniffing])
  = Some (hostA, hostB).
Proof.
  assert (do_op lab (state_after lab [Ingest pAB; ClickConversation 0; Ingest pAC])
                StartSniffing
          = Ok (state_after lab [Ingest pAB; ClickConversation 0; Ingest pAC;
                                 StartSniffing])) as Hop.
  { vm_compute. reflexivity. }
  assert (selected_conversation
            (state_after lab [Ingest pAB; ClickConversation 0; Ingest pAC])
          = Some (hostA, hostB)) as Hsel.
  { vm_compute. reflexivity. }
  exact (selection_ends_only_with_clear lab _ _ _ _ Hop Hsel).
Defined.

Lemma click_leaves_storage_alone_witness :
  conversations (state_after lab [Ingest pAB; Ingest pAC; ClickConversation 1])
  = conversations (state_after lab [Ingest pAB; Ingest pAC]).
Proof.
  assert (rtc (step lab) init (state_after lab [Ingest pAB; Ingest pAC])) as Hsteps.
  { apply reachable_steps. exists [Ingest pAB; Ingest pAC].
    vm_compute. reflexivity. }
  assert (do_op lab (state_after lab [Ingest pAB; Ingest pAC]) (ClickConversation 1)
          = Ok (state_after lab [Ingest pAB; Ingest pAC; ClickConversation 1]))
    as Hop.
  { vm_compute. reflexivity. }
  exact (proj1 (proj2 (click_leaves_storage_alone lab _ _ _ Hsteps Hop))).
Defined.

(** ** Capture files *)

Lemma upload_pcap_stores_without_showing_witness :
  exists self',
    do_op lab (state_after lab [Ingest pBA; ClickConversation 0])
          (UploadPcap (Capture [pAC; arp; pAB; pBA])) = Ok self'
    /\ packets self' = [Scapy.read pAC; Scapy.read pAB; Scapy.read pBA]
    /\ selected_conversation self' = None
    /\ packet_tree self' = []
    /\ conv_scroll_frame self' = [].
Proof.
  assert (after_callbacks (state_after lab [Ingest pBA; ClickConversation 0]) = [])
    as Hq by (vm_compute; reflexivity).
  assert (List.filter has_IP (Scapy.rdpcap [pAC; arp; pAB; pBA])
          = [Scapy.read pAC; Scapy.read pAB; Scapy.read pBA]) as Hfile
    by reflexivity.
  destruct (proj2 (proj2 (upload_pcap_stores_without_showing lab _ Hq))
              [pAC; arp; pAB; pBA])
    as (self' & Hop & Hlog & _ & _ & Hsel & Htree & Hframe & _).
  rewrite Hfile in Hlog.
  exists self'. split; [exact Hop|]. split; [exact Hlog|].
  split; [exact Hsel|]. split; [exact Htree | exact Hframe].
Defined.

(** ** The network map *)

(** With the conversation of A and B selected the two addresses are
    drawn with their edge, though the graph has lost it; with the
    conversation of A with itself selected, nothing is drawn. *)
Lemma network_map_drawn_witness :
  Nx.has_edge (graph (state_after lab (two_sessions ++ [ClickConversation 0])))
              hostA hostB = false
  /\ (exists drawing colors,
        update_network_map lab (state_after lab (two_sessions ++ [ClickConversation 0]))
        = Ok drawing
        /\ drawing_nodes drawing = Some (SizesInOrder [3000; 3000], colors)
        /\ Nx.has_edge (drawing_graph drawing) hostA hostB = true)
  /\ update_network_map lab (state_after lab [Ingest pAA; ClickConversation 0])
     = Raise ValueError (state_after lab [Ingest pAA; ClickConversation 0]).
Proof.
  assert (rtc (step lab) init
              (state_after lab (two_sessions ++ [ClickConversation 0])))
    as Hsteps.
  { apply reachable_steps. exists (two_sessions ++ [ClickConversation 0]).
    vm_compute. reflexivity. }
  assert (selected_conversation
            (state_after lab (two_sessions ++ [ClickConversation 0]))
          = Some (hostA, hostB)) as Hsel by (vm_compute; reflexivity).
  assert (rtc (step lab) init (state_after lab [Ingest pAA; ClickConversation 0]))
    as Hsteps'.
  { apply reachable_steps. exists [Ingest pAA; ClickConversation 0].
    vm_compute. reflexivity. }
  assert (selected_conversation (state_after lab [Ingest pAA; ClickConversation 0])
          = Some (hostA, hostA)) as Hsel' by (vm_compute; reflexivity).
  assert (Nx.has_edge (graph (state_after lab (two_sessions ++ [ClickConversation 0])))
                      hostA hostB = false) as Hlost by (vm_compute; reflexivity).
  pose proof (network_map_drawn lab _ Hsteps) as H.
  rewrite Hsel in H. cbv beta iota in H.
  rewrite (decide_False (P := hostA = hostB)) in H by (intros E; discriminate E).
  pose proof (network_map_drawn lab _ Hsteps') as H'.
  rewrite Hsel' in H'. cbv beta iota in H'.
  rewrite (decide_True (P := hostA = hostA)) in H' by reflexivity.
  split; [exact Hlost|]. split; [|exact H'].
  destruct H as (drawing & colors & Hd & Hn & He & _).
  exists drawing, colors. split; [exact Hd|]. split; [exact Hn|].
  apply He. left. split; reflexivity.
Defined.

(** ** Every interleaving *)

(** The panel made for the first packet of a flow still shows the
    count 1 after a packet of a capture file has made it 2. *)
Lemma store_consistent_under_interleaving_witness :
  Forall (fun btn =>
            btn_count btn <=
            Conv.count (DefaultDict.getitem (btn_command btn)
                          (conversations (stale_panel lab))))
         (conv_scroll_frame (stale_panel lab))
  /\ map (fun btn => (btn_command btn, btn_count btn))
         (conv_scroll_frame (stale_panel lab))
     = [((hostA, hostB), 1)]
  /\ Conv.count (DefaultDict.getitem (hostA, hostB)
                   (conversations (stale_panel lab))) = 2.
Proof.
  assert (map (fun btn => (btn_command btn, btn_count btn))
              (conv_scroll_frame (stale_panel lab))
          = [((hostA, hostB), 1)]) as Hpanel by (vm_compute; reflexivity).
  assert (Conv.count (DefaultDict.getitem (hostA, hostB)
                        (conversations (stale_panel lab))) = 2) as Hcount
    by (vm_compute; reflexivity).
  destruct (store_consistent_under_interleaving lab (stale_panel lab)
              stale_panel_steps) as [_ H].
  split; [|split; [exact Hpanel | exact Hcount]].
  eapply Forall_impl; [exact H|]. intros btn (_ & _ & Hle). exact Hle.
Defined.

Lemma edges_accounted_under_interleaving_witness :
  exists p, p ∈ after_callbacks edge_ahead
            /\ packet_key p = Some (conversation_key hostB hostA).
Proof.
  assert (Nx.has_edge (graph edge_ahead) hostB hostA = true) as Hedge.
  { vm_compute. reflexivity. }
  assert (DefaultDict.keys (conversations edge_ahead) = []) as Hkeys.
  { vm_compute. reflexivity. }
  destruct (edges_accounted_under_interleaving lab edge_ahead hostB hostA
              edge_ahead_steps Hedge) as [H|H].
  - rewrite Hkeys in H. by apply elem_of_nil in H.
  - exact H.
Defined.

(** ** Export *)

Lemma export_writes_the_view_witness :
  Forall2 row_shows (packet_tree (state_after lab filtered_ops))
          [Scapy.sniffed pAB; Scapy.sniffed pAB]
  /\ download_csv (state_after lab filtered_ops) "capture.csv"
     = Some (columns, packet_tree (state_after lab filtered_ops)).
Proof.
  assert (run lab filtered_ops init = Ok (state_after lab filtered_ops)) as Hrun.
  { vm_compute. reflexivity. }
  assert (in_view (state_after lab filtered_ops)
          = [Scapy.sniffed pAB; Scapy.sniffed pAB]) as Hview.
  { vm_compute. reflexivity. }
  pose proof (export_writes_the_view lab filtered_ops _ "capture.csv" Hrun) as H.
  rewrite Hview in H. destruct H as [Hshow Hcsv]; [repeat constructor|].
  split; [exact Hshow|]. rewrite Hcsv.
  rewrite decide_False; [reflexivity|]. intros [E|E]; discriminate E.
Defined.

(** ** Address look-up *)

Lemma blocks_10_and_192_168_answered_locally_witness :
  _fetch_ip_info (fun _ => RequestException) "192.168.1.5"
  = Ok (local_answer "192.168.1.5").
Proof.
  exact (blocks_10_and_192_168_answered_locally (fun _ => RequestException)
           192 168 1 5
           ltac:(lia) ltac:(lia) ltac:(lia) ltac:(lia) eq_refl).
Defined.

(** A reply that is JSON and not an object leaves the box editable. *)
Lemma look_up_leaves_box_witness :
  look_up (fun _ => JsonNotObject) "8.8.8.8" (mkTextBox "old text" true)
  = mkTextBox "Looking up 8.8.8.8..." false.
Proof.
  destruct (proj2 (look_up_leaves_box (fun _ => JsonNotObject) "8.8.8.8"
                     (mkTextBox "old text" true)))
    as [[H _]|[H _]].
  - intros H; discriminate H.
  - intros H; discriminate H.
  - vm_compute in H. discriminate H.
  - exact H.
Defined.
